(** * wingo-contrib: a shallow embedding and its verified properties

    The program installs, upgrades, searches and describes scripts of the
    Wingo contrib repository.  The embedding follows the Go sources:

    - paths are Go strings (byte strings), file contents are [[]byte];
    - a Go [map[string][]byte] is a [gmap string (option (list byte))]: a key
      may be present with a [nil] slice ([None]) and a lookup of a missing key
      yields [nil] as well;
    - the file system, standard output and the log are threaded through a
      small state monad whose computations may stop with [os.Exit] or with a
      run-time panic;
    - the order in which Go ranges over a map is not specified: every
      function that ranges over a map takes the order as an oracle. *)

From Stdlib Require Import ZArith Strings.String Strings.Ascii Strings.Byte.
From stdpp Require Import gmap strings list sorting.

Local Open Scope Z_scope.

(** ** Byte slices *)

Global Instance byte_eq_dec : EqDecision byte := Byte.byte_eq_dec.

(** [[]byte("...")] *)
Definition B (s : string) : list byte := String.list_byte_of_string s.

(** [string(b)] *)
Definition Str (b : list byte) : string := String.string_of_list_byte b.

(** A Go slice value: [None] is the [nil] slice. *)
Abbreviation slice := (option (list byte)).

(** The bytes of a slice; [nil] has none. *)
Definition slice_bytes (s : slice) : list byte := default [] s.

(** [bytes.Equal]: a nil argument is equivalent to an empty slice. *)
Definition bytes_Equal (a b : slice) : bool :=
  bool_decide (slice_bytes a = slice_bytes b).

(** ** Strings *)

Definition slash : ascii := "/"%char.
Definition newline : ascii := "010"%char.
Definition nl : string := String newline EmptyString.

(** [strings.Count(s, "/")] *)
Fixpoint count_slash (s : string) : nat :=
  match s with
  | EmptyString => 0%nat
  | String c s' => if decide (c = slash) then S (count_slash s') else count_slash s'
  end.

(** [strings.Split(s, "/")] *)
Fixpoint components (s : string) : list string :=
  match s with
  | EmptyString => [EmptyString]
  | String c s' =>
      if decide (c = slash) then EmptyString :: components s'
      else match components s' with
           | [] => [String c EmptyString]
           | x :: xs => String c x :: xs
           end
  end.

(** ** Package [path/filepath] (Unix) *)

Module filepath.

(** [Split] cuts the path after its final separator. *)
Fixpoint Split (path : string) : string * string :=
  match path with
  | EmptyString => (EmptyString, EmptyString)
  | String c rest =>
      let '(dir, file) := Split rest in
      match dir with
      | String _ _ => (String c dir, file)
      | EmptyString =>
          if decide (c = slash) then (String c EmptyString, file)
          else (EmptyString, String c file)
      end
  end.

(** One element of the path met by [Clean]; [st] holds the elements
    written so far, the last one first. *)
Definition clean_step (rooted : bool) (st : list string) (c : string)
  : list string :=
  if decide (c = "" ∨ c = ".") then st
  else if decide (c = "..") then
    match st with
    | top :: below => if decide (top = "..") then ".." :: st else below
    | [] => if rooted then [] else [".."]
    end
  else c :: st.

(** The path starts with a separator. *)
Definition rooted (path : string) : bool :=
  match path with
  | String c _ => bool_decide (c = slash)
  | EmptyString => false
  end.

(** The elements that [Clean] keeps, the last one first. *)
Definition clean_stack (path : string) : list string :=
  foldl (clean_step (rooted path)) [] (components path).

(** [Clean] returns the shortest path name equivalent to [path]: empty
    and [.] elements are dropped, [..] removes the element before it (at
    the root it is dropped, in front of a relative path it is kept), and
    the empty result is [.].  The rules are applied element by element
    here, where the Go library walks the bytes. *)
Definition Clean (path : string) : string :=
  let body := String.concat "/" (reverse (clean_stack path)) in
  if rooted path then "/" +:+ body
  else if decide (body = "") then "." else body.

(** [Join] of two elements: empty elements in front are skipped, the rest
    is joined with separators and cleaned. *)
Definition Join (a b : string) : string :=
  if decide (a = "") then
    if decide (b = "") then "" else Clean b
  else Clean (a +:+ "/" +:+ b).

End filepath.

(** ** The remote repository *)

(** [githubNode] represents an entry in the remote repository. *)
Record githubNode := {
  Mode : string;
  Type_ : string;
  SHA : string;
  Path : string;
  Size : Z;
  Url : string
}.

(** [githubTree] represents the entire repository. *)
Record githubTree := {
  treeSHA : string;
  treeUrl_ : string;
  Tree : list githubNode
}.

(** [isScript] returns true if the given entry is a script. *)
Definition isScript (node : githubNode) : bool :=
  bool_decide (count_slash (Path node) = 1%nat).

(** [split] returns the script name and base file name of an entry. *)
Definition split (node : githubNode) : string * string :=
  let '(scriptName, fileName) := filepath.Split (Path node) in
  (filepath.Clean scriptName, fileName).

(** [scriptExists] on the remote tree. *)
Fixpoint nodes_scriptExists (nodes : list githubNode) (scriptName : string) : bool :=
  match nodes with
  | [] => false
  | node :: rest =>
      if isScript node && bool_decide ((split node).1 = scriptName) then true
      else nodes_scriptExists rest scriptName
  end.

Definition scriptExists (gt : githubTree) (scriptName : string) : bool :=
  nodes_scriptExists (Tree gt) scriptName.

(** The [snames] map built by [scripts]. *)
Definition script_names (nodes : list githubNode) : gmap string bool :=
  foldl (λ snames node,
           if isScript node then <[(split node).1 := true]> snames else snames)
        ∅ nodes.

(** [sort.Sort(sort.StringSlice(ss))]: ascending in the byte order of Go
    strings. *)
Definition sort_strings (ss : list string) : list string :=
  merge_sort String.le ss.


(** ** The process: world, outcomes and the monad of commands *)

(** An entry of the local file system.  [fmode] holds the permission bits
    and the setuid, setgid and sticky bits of the entry. *)
Inductive Node :=
  | File (fmode : Z) (data : list byte)
  | Dir (fmode : Z).

(** What a command can observe and change.  The file system is a map from
    clean absolute paths to entries; an operation fails only when the entry
    it needs is missing or of the wrong kind (permissions, missing parent
    directories and device errors are not modelled).  [stdout] and [stderr]
    hold the chunks written so far, oldest first. *)
Record World := {
  fs : gmap string Node;
  umask : Z;
  stdout : list string;
  stderr : list string
}.

Definition set_fs (f : gmap string Node → gmap string Node) (w : World) : World :=
  {| fs := f (fs w); umask := umask w; stdout := stdout w; stderr := stderr w |}.

(** How a computation ends: it returns, the process exits ([os.Exit],
    [log.Fatal]), or the Go run time panics. *)
Inductive Outcome (A : Type) :=
  | Ret (a : A)
  | Exit (code : Z)
  | Panic (msg : string).
Arguments Ret {A} a.
Arguments Exit {A} code.
Arguments Panic {A} msg.

Definition M (A : Type) : Type := World → Outcome A * World.

Definition ret {A} (a : A) : M A := λ w, (Ret a, w).

Definition bind {A B} (c : M A) (k : A → M B) : M B :=
  λ w, match c w with
       | (Ret a, w') => k a w'
       | (Exit code, w') => (Exit code, w')
       | (Panic msg, w') => (Panic msg, w')
       end.

Notation "'let*' x := c 'in' k" := (bind c (λ x, k))
  (at level 10, x binder, c at level 100, k at level 200, only parsing).
Notation "c ;; k" := (bind c (λ _, k))
  (at level 100, k at level 200, right associativity, only parsing).

Definition get_world : M World := λ w, (Ret w, w).
Definition os_Exit {A} (code : Z) : M A := λ w, (Exit code, w).
Definition panic {A} (msg : string) : M A := λ w, (Panic msg, w).

(** [for _, x := range xs { body x }] over a slice. *)
Fixpoint for_each {A} (xs : list A) (body : A → M unit) : M unit :=
  match xs with
  | [] => ret tt
  | x :: rest => body x ;; for_each rest body
  end.

(** Package [fmt]: [Printf] with the text already formatted. *)
Definition fmt_Printf (text : string) : M unit :=
  λ w, (Ret tt, {| fs := fs w; umask := umask w;
                   stdout := stdout w ++ [text]; stderr := stderr w |}).

(** Package [log] with flags 0: an entry is written to standard error and
    ends with a newline. *)
Fixpoint ends_with_newline (s : string) : bool :=
  match s with
  | EmptyString => false
  | String c EmptyString => bool_decide (c = newline)
  | String _ rest => ends_with_newline rest
  end.

Definition log_Output (text : string) : M unit :=
  λ w, (Ret tt, {| fs := fs w; umask := umask w; stdout := stdout w;
                   stderr := stderr w ++
                     [if ends_with_newline text then text else text +:+ nl] |}).

Definition log_Println (text : string) : M unit := log_Output (text +:+ nl).
Definition log_Printf (text : string) : M unit := log_Output text.
Definition log_Fatal {A} (text : string) : M A := log_Output text ;; os_Exit 1.

(** ** Package [os] and [io/ioutil] on the model file system *)

Module os.

(** [Stat]: the entry at [path], or an error. *)
Definition Stat (path : string) (w : World) : string + Node :=
  match fs w !! path with
  | Some n => inr n
  | None => inl ("stat " +:+ path +:+ ": no such file or directory")
  end.

(** [FileMode.Perm]: the nine permission bits. *)
Definition Perm (mode : Z) : Z := Z.land mode 511.

(** [Mkdir]: the new directory gets [perm] less the umask. *)
Definition Mkdir (path : string) (perm : Z) : M (option string) :=
  λ w, match fs w !! path with
       | Some _ => (Ret (Some ("mkdir " +:+ path +:+ ": file exists")), w)
       | None =>
           (Ret None,
            set_fs <[path := Dir (Z.land perm (Z.lnot (umask w)))]> w)
       end.

(** [Create]: the file is created with mode 0666 less the umask, or
    truncated when it exists. *)
Definition Create (path : string) : M (option string) :=
  λ w, match fs w !! path with
       | Some (Dir _) =>
           (Ret (Some ("open " +:+ path +:+ ": is a directory")), w)
       | Some (File mode _) => (Ret None, set_fs <[path := File mode []]> w)
       | None =>
           (Ret None,
            set_fs <[path := File (Z.land 438 (Z.lnot (umask w))) []]> w)
       end.

(** Writing to the file opened at [path] (the [io.Copy] of [copyFile]). *)
Definition Write (path : string) (contents : list byte) : M (option string) :=
  λ w, match fs w !! path with
       | Some (File mode old) =>
           (Ret None, set_fs <[path := File mode (old ++ contents)]> w)
       | _ => (Ret (Some ("write " +:+ path +:+ ": bad file descriptor")), w)
       end.

(** [Chmod] sets the mode bits of an existing entry. *)
Definition Chmod (path : string) (mode : Z) : M (option string) :=
  λ w, match fs w !! path with
       | Some (File _ data) => (Ret None, set_fs <[path := File mode data]> w)
       | Some (Dir _) => (Ret None, set_fs <[path := Dir mode]> w)
       | None =>
           (Ret (Some ("chmod " +:+ path +:+ ": no such file or directory")), w)
       end.

(** [ioutil.ReadFile] *)
Definition ReadFile (path : string) (w : World) : string + list byte :=
  match fs w !! path with
  | Some (File _ data) => inr data
  | Some (Dir _) => inl ("read " +:+ path +:+ ": is a directory")
  | None => inl ("open " +:+ path +:+ ": no such file or directory")
  end.

(** The name of [path] as an entry of the directory [dir], when it is
    one. *)
Fixpoint strip_prefix (p s : string) : option string :=
  match p, s with
  | EmptyString, _ => Some s
  | String a p', String b s' => if decide (a = b) then strip_prefix p' s' else None
  | String _ _, EmptyString => None
  end.

Fixpoint ends_with_slash (s : string) : bool :=
  match s with
  | EmptyString => false
  | String c EmptyString => bool_decide (c = slash)
  | String _ rest => ends_with_slash rest
  end.

Definition child_name (dir path : string) : option string :=
  match strip_prefix (if ends_with_slash dir then dir else dir +:+ "/") path with
  | Some name =>
      if decide (name ≠ "" ∧ count_slash name = 0%nat) then Some name else None
  | None => None
  end.

(** [Open] followed by [Readdir(0)]: the entries of a directory, in the
    order of the file system (not specified; the order of the map here). *)
Definition Readdir (dir : string) (w : World) : string + list (string * Node) :=
  match fs w !! dir with
  | None => inl ("open " +:+ dir +:+ ": no such file or directory")
  | Some (File _ _) => inl ("readdirent " +:+ dir +:+ ": not a directory")
  | Some (Dir _) =>
      inr (omap (λ kn, (λ name, (name, kn.2)) <$> child_name dir kn.1)
                (map_to_list (fs w)))
  end.

End os.

(** ** The environment of a run *)

(** The answer of [http.Get]: a transport error, or a response with its
    status code and its body ([None] when reading the body fails). *)
Inductive HttpResult :=
  | HttpError (err : string)
  | HttpResponse (status : Z) (body : option (list byte)).

(** What a run receives from outside: the command line as parsed by package
    [flag] (the value of [--skip-config] and the remaining arguments), the
    scripts directory found by package [xdg], the decoded answer of the
    tree request (an error of transport or of JSON decoding otherwise), and
    the raw file server. *)
Record Env := {
  flagSkipConfig : bool;
  flagArgs : list string;
  scriptsDir : string + string;
  treeResponse : string + githubTree;
  httpGet : string → HttpResult
}.

Definition rawPrefix : string := "https://raw.github.com/wingowm/contrib/master".

(** ** Package [bytes] and [strings] *)

Section slices.
Context {A : Type} `{EqDecision A}.

(** [bytes.HasPrefix] *)
Fixpoint has_prefix (p s : list A) : bool :=
  match p, s with
  | [], _ => true
  | a :: p', b :: s' => bool_decide (a = b) && has_prefix p' s'
  | _ :: _, [] => false
  end.

(** The text before and after the first instance of [sep] in [s]
    ([bytes.Index] and the two slices taken at it). *)
Fixpoint cut (sep s : list A) : option (list A * list A) :=
  if has_prefix sep s then Some ([], drop (length sep) s)
  else match s with
       | [] => None
       | c :: s' =>
           match cut sep s' with
           | Some (before, after) => Some (c :: before, after)
           | None => None
           end
       end.

Fixpoint split_fuel (fuel : nat) (sep s : list A) : list (list A) :=
  match cut sep s with
  | None => [s]
  | Some (before, after) =>
      match fuel with
      | O => [s]
      | S fuel' => before :: split_fuel fuel' sep after
      end
  end.

(** [bytes.Split(s, sep)] for a separator that is not empty: [s] cut at
    every instance of [sep], from the left. *)
Definition Split (s sep : list A) : list (list A) :=
  split_fuel (length s) sep s.

(** Removing from the front of [s] the sequences listed in [runes], as
    long as one of them is in front. *)
Fixpoint strip_rune (runes : list (list A)) (s : list A) : option (list A) :=
  match runes with
  | [] => None
  | r :: others =>
      if has_prefix r s then Some (drop (length r) s) else strip_rune others s
  end.

Fixpoint trim_fuel (fuel : nat) (runes : list (list A)) (s : list A) : list A :=
  match fuel with
  | O => s
  | S fuel' =>
      match strip_rune runes s with
      | Some s' => trim_fuel fuel' runes s'
      | None => s
      end
  end.

Definition trim_front (runes : list (list A)) (s : list A) : list A :=
  trim_fuel (length s) runes s.
End slices.

(** The UTF-8 encodings of the code points with the Unicode property
    White_Space ([unicode.IsSpace]): U+0009 to U+000D, U+0020, U+0085,
    U+00A0, U+1680, U+2000 to U+200A, U+2028, U+2029, U+202F, U+205F and
    U+3000. *)
Definition space_runes : list (list byte) :=
  [ [x09]; [x0a]; [x0b]; [x0c]; [x0d]; [x20];
    [xc2; x85]; [xc2; xa0]; [xe1; x9a; x80];
    [xe2; x80; x80]; [xe2; x80; x81]; [xe2; x80; x82]; [xe2; x80; x83];
    [xe2; x80; x84]; [xe2; x80; x85]; [xe2; x80; x86]; [xe2; x80; x87];
    [xe2; x80; x88]; [xe2; x80; x89]; [xe2; x80; x8a];
    [xe2; x80; xa8]; [xe2; x80; xa9]; [xe2; x80; xaf];
    [xe2; x81; x9f]; [xe3; x80; x80] ].

(** [bytes.TrimSpace]: leading and trailing white space removed. *)
Definition TrimSpace (s : list byte) : list byte :=
  reverse (trim_front (reverse <$> space_runes)
             (reverse (trim_front space_runes s))).

(** [strings.ToLower] on the ASCII letters; other bytes are kept (the
    mapping of letters outside ASCII is not modelled). *)
Definition lower_ascii (c : ascii) : ascii :=
  let n := nat_of_ascii c in
  if decide (65 ≤ n ∧ n ≤ 90)%nat then ascii_of_nat (n + 32) else c.

Fixpoint ToLower (s : string) : string :=
  match s with
  | EmptyString => EmptyString
  | String c rest => String (lower_ascii c) (ToLower rest)
  end.

(** [strings.Contains] *)
Fixpoint Contains (s substr : string) : bool :=
  String.prefix substr s ||
  match s with
  | EmptyString => false
  | String _ rest => Contains rest substr
  end.

(** [strings.Replace(s, "\n", new, -1)] *)
Fixpoint replace_newlines (s new : string) : string :=
  match s with
  | EmptyString => EmptyString
  | String c rest =>
      if decide (c = newline) then new +:+ replace_newlines rest new
      else String c (replace_newlines rest new)
  end.

(** ** Package [text/tabwriter] *)




(** ** The program *)

(** [configName] returns the base name of the configuration file. *)
Definition configName (scriptName : string) : string := scriptName +:+ ".cfg".

(** [contribScript] is an in-memory representation of an entire script. *)
Record contribScript := {
  Name : string;
  Files : gmap string slice
}.

(** [m[key]] on a Go map of slices: [nil] for a missing key. *)
Definition index (m : gmap string slice) (key : string) : slice :=
  default None (m !! key).

Definition source (s : contribScript) : slice := index (Files s) (Name s).
Definition config (s : contribScript) : slice := index (Files s) (configName (Name s)).

Definition description_marker : list byte :=
  B ("Description" +:+ nl +:+ "===========" +:+ nl).
Definition blank_lines : list byte := B (nl +:+ nl +:+ nl).

(** [readDescription] parses a README.md file and extracts only the
    description.  [None] stands for the run-time panic of an index
    expression that is out of range. *)
Definition readDescription (readme : slice) : option string :=
  let noDesc := Split (slice_bytes readme) description_marker in
  match noDesc !! 1%nat with
  | None => None
  | Some text =>
      let noEx := Split text blank_lines in
      match noEx !! 0%nat with
      | None => None
      | Some first => Some (Str (TrimSpace first))
      end
  end.

(** [localNode] represents a script installed in the local file system. *)
Record localNode := {
  ScriptName : string;
  LPath : string
}.

(** [scriptExists] on the local tree. *)
Fixpoint local_scriptExists (lt : list localNode) (scriptName : string) : bool :=
  match lt with
  | [] => false
  | node :: rest =>
      if bool_decide (ScriptName node = scriptName) then true
      else local_scriptExists rest scriptName
  end.

(** [chmodx]: the loop [for i := 6; i >= 0; i -= 3] over the three execute
    bits. *)
Definition set_bit (perms : Z) (i : Z) : Z :=
  if Z.land perms (Z.shiftl 1 i) =? 0 then Z.lor perms (Z.shiftl 1 i) else perms.

Definition add_exec_bits (perms : Z) : Z :=
  foldl set_bit perms [6; 3; 0].

Section program.
(** The run: its environment, and the order in which a [range] visits
    the keys of a map (given the keys in the order of the model). *)
Variable env : Env.
Variable range_keys : list string → list string.

Definition keys {V} (m : gmap string V) : list string :=
  range_keys (map_to_list m).*1.

(** [usage]: the text, then for each registered flag (name, default,
    help) its name and its help, and exit status 1. *)
Definition usage {A} (info : string) (flags : list (string * string * string)) : M A :=
  log_Printf (info +:+ nl +:+ nl) ;;
  for_each flags (λ fl,
    let '(name, defValue, help) := fl in
    let def := if decide (defValue = "") then ""
               else " (default: " +:+ defValue +:+ ")" in
    log_Printf ("-" +:+ name +:+ def +:+ nl) ;;
    log_Printf ("    " +:+ replace_newlines help (nl +:+ "    ") +:+ nl)) ;;
  os_Exit 1.

(** [getGithubTree] fetches all entries of the repository. *)
Definition getGithubTree : M githubTree :=
  match treeResponse env with
  | inl err => log_Fatal err
  | inr tree => ret tree
  end.

(** [scripts] returns all scripts of the repository. *)
Definition scripts (gt : githubTree) : list string :=
  sort_strings (keys (script_names (Tree gt))).

(** [getLocalTree] scans the local file system for installed scripts. *)
Definition getLocalTree (cpath : string) : M (list localNode) :=
  let* w := get_world in
  match os.Readdir cpath w with
  | inl err => log_Fatal err
  | inr fis =>
      ret (omap (λ fi, match fi.2 with
                       | Dir _ =>
                           Some {| ScriptName := fi.1;
                                   LPath := filepath.Join cpath fi.1 |}
                       | File _ _ => None
                       end) fis)
  end.

(** [hasConfig] and [readConfig] of a local script. *)
Definition hasConfig (ln : localNode) : M bool :=
  let* w := get_world in
  match os.Stat (filepath.Join (LPath ln) (configName (ScriptName ln))) w with
  | inr _ => ret true
  | inl _ => ret false
  end.

Definition readConfig (ln : localNode) : M slice :=
  let fp := filepath.Join (LPath ln) (configName (ScriptName ln)) in
  let* w := get_world in
  match os.ReadFile fp w with
  | inl err => log_Fatal ("Could not read config file " +:+ fp +:+ ": " +:+ err)
  | inr contents => ret (Some contents)
  end.

(** [contribPath] returns the path of the scripts directory. *)
Definition contribPath : M string :=
  match scriptsDir env with
  | inl err => log_Fatal ("Could not find local scripts directory: " +:+ err)
  | inr fp => ret fp
  end.

(** [downloadFile] retrieves one file of a script: its bytes, or [nil]
    when the status is 400 or more. *)
Definition downloadFile (scriptName fileName : string) : M slice :=
  let url := rawPrefix +:+ "/" +:+ scriptName +:+ "/" +:+ fileName in
  match httpGet env url with
  | HttpError err => log_Fatal ("Could not download " +:+ url +:+ ": " +:+ err)
  | HttpResponse status body =>
      if status <? 400 then
        match body with
        | None => log_Fatal ("Could not read response " +:+ url +:+ ": unexpected EOF")
        | Some contents => ret (Some contents)
        end
      else ret None
  end.

(** [download] retrieves all of the files in a script directory. *)
Fixpoint download_nodes (scriptName : string) (nodes : list githubNode)
    (files : gmap string slice) : M (gmap string slice) :=
  match nodes with
  | [] => ret files
  | node :: rest =>
      let '(sname, fname) := split node in
      if decide (sname = scriptName) then
        let* contents := downloadFile scriptName fname in
        download_nodes scriptName rest (<[fname := contents]> files)
      else download_nodes scriptName rest files
  end.

Definition download (gt : githubTree) (scriptName : string) : M contribScript :=
  let* files := download_nodes scriptName (Tree gt) ∅ in
  let script := {| Name := scriptName; Files := files |} in
  match index (Files script) "README.md" with
  | None =>
      log_Fatal ("CORRUPT REPOSITORY: No README.md file found for " +:+
                 scriptName +:+ ".")
  | Some _ =>
      match source script with
      | None =>
          log_Fatal ("CORRUPT REPOSITORY: No script file found for " +:+
                     scriptName +:+ ".")
      | Some _ => ret script
      end
  end.

(** [copyFile] copies the file in memory to a new file at [dest]. *)
Definition copyFile (s : contribScript) (fileName dest : string) : M unit :=
  match index (Files s) fileName with
  | None => log_Fatal ("BUG: Could not find file %s in memory." +:+ fileName)
  | Some contents =>
      let* err := os.Create dest in
      match err with
      | Some e => log_Fatal ("Could not create file %s: %s" +:+ dest +:+ e)
      | None =>
          let* err := os.Write dest contents in
          match err with
          | Some e => log_Fatal ("Could not write to file %s: %s" +:+ dest +:+ e)
          | None => ret tt
          end
      end
  end.

(** [copyAll] runs [copyFile] on every file in the script directory. *)
Definition copyAll (s : contribScript) (scriptDir : string) : M unit :=
  for_each (keys (Files s)) (λ fname,
    copyFile s fname (filepath.Join scriptDir fname)).

(** [chmodx] sets the executable bit for owner, group and other. *)
Definition chmodx (fpath : string) : M unit :=
  let* w := get_world in
  match os.Stat fpath w with
  | inl err => log_Fatal err
  | inr fi =>
      let perms := os.Perm (match fi with File m _ => m | Dir m => m end) in
      let perms := add_exec_bits perms in
      let* err := os.Chmod fpath perms in
      match err with
      | Some e =>
          log_Fatal ("Could not make '" +:+ fpath +:+ "' executable: " +:+ e)
      | None => ret tt
      end
  end.

(** The argument of a command that takes exactly one:
    [if flag.NArg() != 1 { flag.Usage() }; scriptName := flag.Arg(0)]. *)
Definition one_argument (info : string) (flags : list (string * string * string))
  : M string :=
  match flagArgs env with
  | [scriptName] => ret scriptName
  | _ => usage info flags
  end.

Definition install : M unit :=
  let* scriptName := one_argument "Usage: wingo-contrib install script-name" [] in
  let* cpath := contribPath in
  let* gt := getGithubTree in
  let* lt := getLocalTree cpath in
  if negb (scriptExists gt scriptName) then
    log_Fatal ("Script '" +:+ scriptName +:+ "' does not exist in wingo-contrib.")
  else if local_scriptExists lt scriptName then
    log_Fatal ("Script '" +:+ scriptName +:+ "' is already installed. Please use " +:+
               "the upgrade command to update.")
  else
    let scriptDir := filepath.Join cpath scriptName in
    let* err := os.Mkdir scriptDir 511 in
    match err with
    | Some e => log_Fatal ("Could not create '" +:+ scriptDir +:+ "': " +:+ e)
    | None =>
        let* script := download gt scriptName in
        copyAll script scriptDir ;;
        chmodx (filepath.Join scriptDir scriptName)
    end.

Definition skip_config_flag : string * string * string :=
  ("skip-config", "false",
   "Upgrade proceeds even if the local and remote config files differ.").

(** The three ways in which [upgrade] ends once the script is downloaded
    (the statements of [upgrade] that follow the definition of [lnode]). *)
Definition upgrade_files (scriptName : string) (script : contribScript)
    (scriptDir : string) (lnode : localNode) : M unit :=
  if flagSkipConfig env then
    for_each (keys (Files script)) (λ fname,
      if decide (fname ≠ configName scriptName) then
        copyFile script fname (filepath.Join scriptDir fname)
      else ret tt)
  else
    let* has := hasConfig lnode in
    let* same :=
      (if negb has then ret true
       else if bool_decide (config script = None) then ret true
       else let* mine := readConfig lnode in
            ret (bytes_Equal mine (config script))) in
    if (same : bool) then copyAll script scriptDir
    else
      log_Println "MANUAL INTERVENTION REQUIRED!" ;;
      log_Printf ("The configuration file" +:+ nl +:+ nl +:+ "    " +:+
                  filepath.Join (LPath lnode) (configName (ScriptName lnode)) +:+
                  nl +:+ nl +:+ "differs from the remote copy." +:+ nl) ;;
      log_Printf ("Please move the local configuration to a different location" +:+ nl +:+
                  "and run the upgrade command again. Then merge your old" +:+ nl +:+
                  "configuration file with the new one." +:+ nl) ;;
      log_Println ("Alternatively, upgrade with '--skip-config' set." +:+ nl) ;;
      log_Println ("(Holler at BurntSushi if you think this behavior " +:+
                   "should change.)").

Definition upgrade : M unit :=
  let* scriptName :=
    one_argument "Usage: wingo-contrib upgrade script-name [flags]"
                 [skip_config_flag] in
  let* cpath := contribPath in
  let* gt := getGithubTree in
  let* lt := getLocalTree cpath in
  if negb (scriptExists gt scriptName) then
    log_Fatal ("Script '" +:+ scriptName +:+ "' does not exist in wingo-contrib.")
  else if negb (local_scriptExists lt scriptName) then
    log_Fatal ("Script '" +:+ scriptName +:+ "' is not installed. Please add it " +:+
               "with the install command first.")
  else
    let* script := download gt scriptName in
    let scriptDir := filepath.Join cpath scriptName in
    let lnode := {| ScriptName := scriptName; LPath := scriptDir |} in
    upgrade_files scriptName script scriptDir lnode.

(** The entries of [search]: a script name and its description. *)
Record script_entry := { name : string; desc : string }.

Definition dled (sname : string) : M script_entry :=
  let* readme := downloadFile sname "README.md" in
  match readDescription readme with
  | None => panic "runtime error: index out of range"
  | Some d => ret {| name := sname; desc := d |}
  end.

(** [fun.ParMap]: the results in the order of the arguments.  The calls
    run one after the other here; a call that stops the process stops it
    before anything is printed, whichever call it is. *)
Fixpoint map_M {A B} (f : A → M B) (xs : list A) : M (list B) :=
  match xs with
  | [] => ret []
  | x :: rest =>
      let* y := f x in
      let* ys := map_M f rest in
      ret (y :: ys)
  end.

(** [fun.QuickSort] with [less] on the names. *)
Definition sort_entries (es : list script_entry) : list script_entry :=
  merge_sort (λ s1 s2, String.le (name s1) (name s2)) es.

Definition search : M unit :=
  let query := String.concat " " (flagArgs env) in
  let* gt := getGithubTree in
  let* found := map_M dled (scripts gt) in
  for_each (sort_entries found) (λ script,
    if Contains (ToLower (desc script)) query then
      fmt_Printf (name script +:+ nl +:+ "    " +:+
                  replace_newlines (desc script) (nl +:+ "    ") +:+ nl +:+ nl)
    else ret tt).

Definition info : M unit :=
  let* scriptName := one_argument "Usage: wingo-contrib info script-name" [] in
  let* gt := getGithubTree in
  if negb (scriptExists gt scriptName) then
    log_Fatal ("Script '" +:+ scriptName +:+ "' does not exist in wingo-contrib.")
  else
    let* readme := downloadFile scriptName "README.md" in
    fmt_Printf (nl +:+ Str (slice_bytes readme) +:+ nl).

(** [list] prints the installed scripts that the repository has
    ([fmt.Println] writes the name and a newline). *)
Definition list_ : M unit :=
  let* cpath := contribPath in
  let* gt := getGithubTree in
  let* lt := getLocalTree cpath in
  for_each lt (λ lnode,
    if scriptExists gt (ScriptName lnode) then
      fmt_Printf (ScriptName lnode +:+ nl)
    else ret tt).




End program.

(** * Notions used in the statements *)

(** ** Ranges, listings and occurrences *)

(** The orders in which a [range] may visit the keys of a map. *)
Definition valid_order (range_keys : list string → list string) : Prop :=
  ∀ ks, range_keys ks ≡ₚ ks.

(** The range that visits the keys in the order of the model. *)
Definition any_order : list string → list string := λ ks, ks.

(** A file entry of a listing, and the listing with the given paths. *)
Definition blob (path : string) : githubNode :=
  {| Mode := "100644"; Type_ := "blob"; SHA := ""; Path := path;
     Size := 0; Url := "" |}.

Definition tree_of (paths : list string) : githubTree :=
  {| treeSHA := ""; treeUrl_ := ""; Tree := blob <$> paths |}.

(** [sep] occurs in [s] after [before] and not earlier. *)
Definition first_at {A} (sep s before after : list A) : Prop :=
  s = before ++ sep ++ after ∧
  ∀ before' after', s = before' ++ sep ++ after' →
                    (length before ≤ length before')%nat.

(** [l] is made of the sequences listed in [runes], one after the other. *)
Inductive runs {A} (runes : list (list A)) : list A → Prop :=
  | runs_nil : runs runes []
  | runs_cons r l : r ∈ runes → runs runes l → runs runes (r ++ l).

(** [t] is [s] without the white space around it: [s] is [t] between two
    runs of white space, and [t] neither starts nor ends with a white
    space. *)
Definition trimmed (s t : list byte) : Prop :=
  (∃ l r, s = l ++ t ++ r ∧ runs space_runes l ∧ runs space_runes r) ∧
  (∀ r rest, r ∈ space_runes → t ≠ r ++ rest) ∧
  (∀ r rest, r ∈ space_runes → t ≠ rest ++ r).

(** ** Matching and printing *)

(** The match of the specification: the description contains the query,
    letter case ignored. *)
Definition contains_ignoring_case (description query : string) : bool :=
  Contains (ToLower description) (ToLower query).

(** An upper-case ASCII letter occurs in the string. *)
Fixpoint has_upper (s : string) : bool :=
  match s with
  | EmptyString => false
  | String c rest =>
      bool_decide (65 ≤ nat_of_ascii c ∧ nat_of_ascii c ≤ 90)%nat || has_upper rest
  end.

(** Computations that write nothing to standard output and leave the file
    system alone. *)
Definition quiet {A} (c : M A) : Prop :=
  ∀ w, stdout (c w).2 = stdout w ∧ fs (c w).2 = fs w.

(** ** Files and copies *)

(** A directory sits at [path]. *)
Definition is_dir (m : gmap string Node) (path : string) : Prop :=
  ∃ mode, m !! path = Some (Dir mode).

Global Instance is_dir_dec m path : Decision (is_dir m path).
Proof.
  unfold is_dir. destruct (m !! path) as [[mode data|mode]|].
  - right. by intros [? ?].
  - left. by exists mode.
  - right. by intros [? ?].
Defined.

(** The mode that [os.Create] gives to the file at [path]. *)
Definition file_mode (w : World) (path : string) : Z :=
  match fs w !! path with
  | Some (File mode _) => mode
  | _ => Z.land 438 (Z.lnot (umask w))
  end.

(** The world once [contents] are written to the file at [dest]. *)
Definition written (w : World) (dest : string) (contents : list byte) : World :=
  set_fs <[dest := File (file_mode w dest) contents]> w.

(** The contents in memory of a file of the bundle. *)
Definition contents_of (s : contribScript) (fileName : string) : list byte :=
  default [] (index (Files s) fileName).

(** The world once the files [names] are copied, one after the other. *)
Fixpoint copied (s : contribScript) (dest : string → string)
    (names : list string) (w : World) : World :=
  match names with
  | [] => w
  | f :: rest => copied s dest rest (written w (dest f) (contents_of s f))
  end.

(** [copyFile] on each of [names], in that order (the loop of [copyAll]
    and of [upgrade]). *)
Definition copy_each (s : contribScript) (dest : string → string)
    (names : list string) : M unit :=
  for_each names (λ f, copyFile s f (dest f)).

(** The name of a file in a directory: not empty, without separator, and
    neither [.] nor [..]. *)
Definition plain_name (f : string) : Prop :=
  f ≠ "" ∧ f ≠ "." ∧ f ≠ ".." ∧ count_slash f = 0%nat.

Global Instance plain_name_dec f : Decision (plain_name f).
Proof. unfold plain_name. apply _. Defined.

(** The text that [String.concat] puts before a last element. *)
Fixpoint concat_before (sep : string) (l : list string) : string :=
  match l with
  | [] => ""
  | x :: rest => x +:+ sep +:+ concat_before sep rest
  end.

(** Computations that return the same value in every world and leave the
    world as it is, or that stop the process in every world. *)
Definition pure_or_fatal {A} (c : M A) : Prop :=
  (∃ a, ∀ w, c w = (Ret a, w)) ∨
  (∀ w, ∃ w', c w = (Exit 1, w') ∧ fs w' = fs w ∧ stdout w' = stdout w ∧
              umask w' = umask w).

(** ** Upgrades *)

(** [upgrade] gets as far as the downloaded bundle: one argument [S], a
    scripts directory, a listing that has [S], a local tree that has [S],
    and a bundle with both mandatory files. *)
Definition upgrade_ready env (w : World) (S cpath : string)
    (gt : githubTree) (script : contribScript) : Prop :=
  flagArgs env = [S] ∧
  scriptsDir env = inr cpath ∧
  treeResponse env = inr gt ∧
  scriptExists gt S = true ∧
  (∃ lt, getLocalTree cpath w = (Ret lt, w) ∧ local_scriptExists lt S = true) ∧
  download env gt S w = (Ret script, w).

(** Every file of the bundle selected by [which] has contents in memory
    and can be created in [scriptDir]. *)
Definition fetched (script : contribScript) (w : World) (scriptDir : string)
    (which : string → Prop) : Prop :=
  map_Forall (λ f contents,
                which f →
                is_Some contents ∧ ¬ is_dir (fs w) (filepath.Join scriptDir f))
             (Files script).

(** Every file name of the bundle is a plain name. *)
Definition plain_files (script : contribScript) : Prop :=
  map_Forall (λ f _, plain_name f) (Files script).

Global Instance fetched_dec script w scriptDir (which : string → Prop)
    `{∀ f, Decision (which f)} : Decision (fetched script w scriptDir which).
Proof. unfold fetched. apply _. Defined.

Global Instance plain_files_dec script : Decision (plain_files script).
Proof. unfold plain_files. apply _. Defined.

(** From [w] to [w'], the files of the bundle selected by [which] were
    written to [scriptDir] with their contents in memory, nothing else
    changed in the file system, and nothing was printed or logged. *)
Definition copies (script : contribScript) (w : World) (scriptDir : string)
    (which : string → Prop) (w' : World) : Prop :=
  (∀ f contents,
     which f → Files script !! f = Some (Some contents) →
     fs w' !! filepath.Join scriptDir f
     = Some (File (file_mode w (filepath.Join scriptDir f)) contents)) ∧
  (∀ path,
     (∀ f, is_Some (Files script !! f) → which f →
           path ≠ filepath.Join scriptDir f) →
     fs w' !! path = fs w !! path) ∧
  stdout w' = stdout w ∧ stderr w' = stderr w.

(** ** A sample repository and two sample machines *)

Module sample.

(** The listing of a repository with one script [foo]: its directory,
    its README, its source and its configuration file. *)
Definition remote : githubTree :=
  tree_of ["README.md"; "foo"; "foo/README.md"; "foo/foo"; "foo/foo.cfg"].

(** The README of [foo]; its description is [Foo bar]. *)
Definition readme : list byte :=
  B ("foo" +:+ nl +:+ "===" +:+ nl +:+ nl +:+
     "Description" +:+ nl +:+ "===========" +:+ nl +:+
     "Foo bar" +:+ nl +:+ nl +:+ nl +:+ "Example" +:+ nl).

(** The raw file server: status 200 for the files of [foo], 404 for the
    rest. *)
Definition server (cfg : list byte) (url : string) : HttpResult :=
  if decide (url = rawPrefix +:+ "/foo/README.md") then
    HttpResponse 200 (Some readme)
  else if decide (url = rawPrefix +:+ "/foo/foo") then
    HttpResponse 200 (Some (B "#!/bin/sh"))
  else if decide (url = rawPrefix +:+ "/foo/foo.cfg") then
    HttpResponse 200 (Some cfg)
  else HttpResponse 404 (Some (B "Not Found")).

(** A run with the given flag and arguments, against a repository whose
    configuration file for [foo] holds [cfg]. *)
Definition run_with (skip : bool) (args : list string) (cfg : list byte) : Env :=
  {| flagSkipConfig := skip; flagArgs := args;
     scriptsDir := inr "/etc/wingo/scripts";
     treeResponse := inr remote; httpGet := server cfg |}.

(** A machine without any script. *)
Definition fresh : World :=
  {| fs := {[ "/etc/wingo/scripts" := Dir 493 ]};
     umask := 18; stdout := []; stderr := [] |}.

(** A machine with [foo] installed and its configuration edited. *)
Definition installed : World :=
  {| fs := {[ "/etc/wingo/scripts" := Dir 493;
              "/etc/wingo/scripts/foo" := Dir 493;
              "/etc/wingo/scripts/foo/README.md" := File 420 (B "old");
              "/etc/wingo/scripts/foo/foo" := File 493 (B "#!/bin/sh");
              "/etc/wingo/scripts/foo/foo.cfg" := File 420 (B "mine") ]};
     umask := 18; stdout := []; stderr := [] |}.

End sample.

(** The bundle that [download] builds for [foo] from the sample
    repository. *)
Definition sample_bundle (cfg : list byte) : contribScript :=
  {| Name := "foo";
     Files := {[ "README.md" := Some sample.readme;
                 "foo" := Some (B "#!/bin/sh");
                 "foo.cfg" := Some cfg ]} |}.

Module broken.

(** The script [foo] with a subdirectory: the listing has the entry
    [foo/doc], and the raw file server answers 404 for it. *)
Definition remote : githubTree :=
  tree_of ["foo"; "foo/README.md"; "foo/doc"; "foo/doc/notes"; "foo/foo"].

Definition run (args : list string) : Env :=
  {| flagSkipConfig := false; flagArgs := args;
     scriptsDir := inr "/etc/wingo/scripts";
     treeResponse := inr remote; httpGet := sample.server (B "theirs") |}.

(** The bundle that [download] builds for it: [doc] is a [nil] entry. *)
Definition bundle : contribScript :=
  {| Name := "foo";
     Files := {[ "README.md" := Some sample.readme;
                 "doc" := None;
                 "foo" := Some (B "#!/bin/sh") ]} |}.

End broken.

(** ** Outcomes of the commands *)

(** The world once [chunks] are written to standard output. *)
Definition printing (chunks : list string) (w : World) : World :=
  {| fs := fs w; umask := umask w; stdout := stdout w ++ chunks;
     stderr := stderr w |}.

(** The computation stops the process with exit status 1 in every world,
    and only the log changes. *)
Definition always_fatal {A} (c : M A) : Prop :=
  ∀ w, ∃ w', c w = (Exit 1, w') ∧ fs w' = fs w ∧ stdout w' = stdout w ∧
             umask w' = umask w.

(** The computation leaves the file system as it is, however it ends. *)
Definition keeps_files {A} (c : M A) : Prop :=
  ∀ w, fs (c w).2 = fs w.

(** The address that [downloadFile] asks for. *)
Definition raw_url (scriptName fileName : string) : string :=
  rawPrefix +:+ "/" +:+ scriptName +:+ "/" +:+ fileName.


(** [install] gets as far as making the script directory: one argument
    [S], a scripts directory, a listing that has [S], a local tree that
    does not have it, nothing at the place of the script directory, and a
    bundle with both mandatory files. *)
Definition install_ready env (w : World) (S cpath : string)
    (gt : githubTree) (script : contribScript) : Prop :=
  flagArgs env = [S] ∧
  scriptsDir env = inr cpath ∧
  treeResponse env = inr gt ∧
  scriptExists gt S = true ∧
  (∃ lt, getLocalTree cpath w = (Ret lt, w) ∧ local_scriptExists lt S = false) ∧
  fs w !! filepath.Join cpath S = None ∧
  download env gt S w = (Ret script, w).

(** Every file of the bundle has contents in memory, and its destination
    is neither a directory nor the script directory itself. *)
Definition installable (script : contribScript) (w : World)
    (scriptDir : string) : Prop :=
  map_Forall (λ f contents,
                is_Some contents ∧
                ¬ is_dir (fs w) (filepath.Join scriptDir f) ∧
                filepath.Join scriptDir f ≠ scriptDir)
             (Files script).

Global Instance installable_dec script w scriptDir :
  Decision (installable script w scriptDir).
Proof. unfold installable. apply _. Defined.

(** * Properties *)

(** ** The path library on the cases of its documentation *)

Example Clean_cases :
  filepath.Clean <$>
    ["abc"; "abc/def"; "."; ".."; "../.."; "../../abc"; "/abc"; "/"; "";
     "abc/"; "abc/def/"; "./"; "../"; "../../"; "/abc/";
     "abc//def//ghi"; "abc//"; "//abc"; "abc/./def"; "/./abc/def"; "abc/.";
     "abc/def/ghi/../jkl"; "abc/def/../ghi/../jkl"; "abc/def/..";
     "abc/def/../.."; "/abc/def/../.."; "abc/def/../../..";
     "/abc/def/../../.."; "abc/def/../../../ghi/jkl/../../../mno";
     "/../abc"; "abc/./../def"; "abc//./../def"; "abc/../../././../def"]
  = ["abc"; "abc/def"; "."; ".."; "../.."; "../../abc"; "/abc"; "/"; ".";
     "abc"; "abc/def"; "."; ".."; "../.."; "/abc";
     "abc/def/ghi"; "abc"; "/abc"; "abc/def"; "/abc/def"; "abc";
     "abc/def/jkl"; "abc/jkl"; "abc";
     "."; "/"; "..";
     "/"; "../../mno";
     "/abc"; "def"; "def"; "../../def"].
Proof. vm_compute. reflexivity. Qed.

Example Split_Join_cases :
  filepath.Split <$> ["foo/README.md"; "README.md"; "foo/doc/notes"; "foo/"; ""]
  = [("foo/", "README.md"); ("", "README.md"); ("foo/doc/", "notes");
     ("foo/", ""); ("", "")] ∧
  filepath.Join "/etc/wingo/scripts" "foo" = "/etc/wingo/scripts/foo" ∧
  filepath.Join "a" "" = "a" ∧ filepath.Join "" "b" = "b" ∧
  filepath.Join "a/b" "../c" = "a/c".
Proof. vm_compute. done. Qed.

(** ** The execute bits *)

Lemma set_bit_lor perms i :
  0 ≤ i → set_bit perms i = Z.lor perms (Z.shiftl 1 i).
Proof.
  intros Hi. unfold set_bit. rewrite Z.shiftl_1_l.
  destruct (Z.eqb_spec (Z.land perms (2 ^ i)) 0) as [|Hne]; [done|].
  symmetry. apply Z.bits_inj'. intros n Hn.
  rewrite Z.lor_spec, Z.pow2_bits_eqb by done.
  destruct (Z.eqb_spec i n) as [->|Hni]; [|by rewrite orb_false_r].
  destruct (Z.testbit perms n) eqn:Hb; [done|].
  exfalso. apply Hne. apply Z.bits_inj'. intros k Hk.
  rewrite Z.land_spec, Z.pow2_bits_eqb, Z.bits_0 by done.
  destruct (Z.eqb_spec n k) as [->|]; [by rewrite Hb|by rewrite andb_false_r].
Qed.

Lemma add_exec_bits_lor perms : add_exec_bits perms = Z.lor perms 73.
Proof.
  unfold add_exec_bits. simpl.
  rewrite !set_bit_lor by lia. rewrite <- !Z.lor_assoc. done.
Qed.

Lemma testbit_73 i :
  Z.testbit 73 i = bool_decide (i = 0 ∨ i = 3 ∨ i = 6).
Proof.
  destruct (decide (0 ≤ i < 7)) as [Hi|Hi].
  - assert (i = 0 ∨ i = 1 ∨ i = 2 ∨ i = 3 ∨ i = 4 ∨ i = 5 ∨ i = 6) as Hc by lia.
    destruct Hc as [->|[->|[->|[->|[->|[->| ->]]]]]]; done.
  - rewrite bool_decide_eq_false_2 by lia.
    destruct (decide (i < 0)); [apply Z.testbit_neg_r; lia|].
    apply Z.bits_above_log2; [lia|]. change (Z.log2 73) with 6. lia.
Qed.

(** C6: the executable-bit step adds the execute bits of owner, group and
    other to the permission bits of the file and keeps its read and write
    bits: a file of mode [mode] ends with the permission bits of [mode]
    or-ed with 0111 (octal), its contents unchanged. *)
Theorem chmodx_additive (w : World) (fpath : string) (mode : Z) (data : list byte) :
  fs w !! fpath = Some (File mode data) →
  ∃ mode',
    chmodx fpath w = (Ret tt, set_fs <[fpath := File mode' data]> w) ∧
    mode' = Z.lor (os.Perm mode) 73 ∧
    Z.testbit mode' 6 = true ∧ Z.testbit mode' 3 = true ∧
    Z.testbit mode' 0 = true ∧
    (∀ i, 0 ≤ i < 9 → i ≠ 6 → i ≠ 3 → i ≠ 0 →
          Z.testbit mode' i = Z.testbit mode i).
Proof.
  intros Hf. exists (Z.lor (os.Perm mode) 73).
  split; [|split; [done|]].
  - unfold chmodx, bind, get_world, os.Stat, os.Chmod. rewrite Hf. simpl.
    rewrite Hf. by rewrite add_exec_bits_lor.
  - rewrite !Z.lor_spec, !testbit_73. simpl.
    split; [by rewrite orb_true_r|]. split; [by rewrite orb_true_r|].
    split; [by rewrite orb_true_r|].
    intros i Hi H6 H3 H0. rewrite Z.lor_spec, testbit_73.
    rewrite bool_decide_eq_false_2 by lia. rewrite orb_false_r.
    unfold os.Perm. rewrite Z.land_spec.
    change 511 with (Z.ones 9). rewrite Z.ones_spec_low by lia.
    by rewrite andb_true_r.
Qed.

(** A file of mode 0640 is left with mode 0751. *)
Lemma chmodx_additive_witness :
  ∃ mode',
    chmodx "/s/x" {| fs := {[ "/s/x" := File 416 [] ]}; umask := 18;
                      stdout := []; stderr := [] |}
    = (Ret tt, set_fs <[ "/s/x" := File mode' [] ]>
                 {| fs := {[ "/s/x" := File 416 [] ]}; umask := 18;
                    stdout := []; stderr := [] |}) ∧
    mode' = Z.lor (os.Perm 416) 73 ∧
    Z.testbit mode' 6 = true ∧ Z.testbit mode' 3 = true ∧
    Z.testbit mode' 0 = true ∧
    (∀ i, 0 ≤ i < 9 → i ≠ 6 → i ≠ 3 → i ≠ 0 →
          Z.testbit mode' i = Z.testbit 416 i).
Proof.
  apply (chmodx_additive
           {| fs := {[ "/s/x" := File 416 [] ]}; umask := 18;
              stdout := []; stderr := [] |} "/s/x" 416 []).
  reflexivity.
Defined.

(** ** Strings and paths *)

Lemma app_String c a b : String c a +:+ b = String c (a +:+ b).
Proof. reflexivity. Qed.

Lemma app_empty_l b : "" +:+ b = b.
Proof. reflexivity. Qed.

Lemma count_slash_app a b :
  count_slash (a +:+ b) = (count_slash a + count_slash b)%nat.
Proof.
  induction a as [|c a IH]; [done|].
  rewrite app_String. simpl. destruct (decide (c = slash)); lia.
Qed.

Lemma components_no_slash a : count_slash a = 0%nat → components a = [a].
Proof.
  induction a as [|c a IH]; [done|]. simpl.
  destruct (decide (c = slash)); [done|]. intros Ha. by rewrite IH.
Qed.

Lemma components_app_slash a b :
  count_slash a = 0%nat →
  components (a +:+ "/" +:+ b) = a :: components b.
Proof.
  induction a as [|c a IH]; [done|]. rewrite app_String. simpl.
  destruct (decide (c = slash)); [done|]. intros Ha. by rewrite IH.
Qed.

Lemma Split_no_slash s : count_slash s = 0%nat → filepath.Split s = ("", s).
Proof.
  induction s as [|c s IH]; [done|]. simpl.
  destruct (decide (c = slash)); [done|]. intros Hs. by rewrite IH.
Qed.

Lemma Split_cons c rest :
  filepath.Split (String c rest) =
  let '(dir, file) := filepath.Split rest in
  match dir with
  | String _ _ => (String c dir, file)
  | EmptyString =>
      if decide (c = slash) then (String c EmptyString, file)
      else (EmptyString, String c file)
  end.
Proof. reflexivity. Qed.

Lemma Split_app a b :
  count_slash b = 0%nat → filepath.Split (a +:+ "/" +:+ b) = (a +:+ "/", b).
Proof.
  intros Hb. induction a as [|c a IH].
  - rewrite !app_empty_l. change ("/" +:+ b) with (String slash b).
    simpl. by rewrite Split_no_slash.
  - rewrite !(app_String c a), Split_cons, IH. by destruct a.
Qed.

(** A path with a single separator is a name, the separator and a name. *)
Lemma one_slash_inv p :
  count_slash p = 1%nat →
  ∃ a b, p = a +:+ "/" +:+ b ∧ count_slash a = 0%nat ∧ count_slash b = 0%nat.
Proof.
  induction p as [|c p IH]; [done|]. simpl.
  destruct (decide (c = slash)) as [->|Hc].
  - intros [= Hp]. by exists "", p.
  - intros (a & b & -> & Ha & Hb)%IH. exists (String c a), b.
    split; [done|]. split; [|done]. simpl. by rewrite decide_False.
Qed.

Lemma clean_step_empty r st : filepath.clean_step r st "" = st.
Proof. reflexivity. Qed.

Lemma Clean_dir a :
  count_slash a = 0%nat →
  filepath.Clean (a +:+ "/") = if decide (a = "") then "/" else a.
Proof.
  intros Ha. unfold filepath.Clean, filepath.clean_stack.
  replace (components (a +:+ "/")) with [a; ""]
    by (symmetry; exact (components_app_slash a "" Ha)).
  destruct a as [|c a]; [reflexivity|].
  rewrite app_String.
  assert (c ≠ slash) as Hc.
  { intros ->. by simpl in Ha. }
  assert (filepath.rooted (String c (a +:+ "/")) = false) as ->.
  { simpl. by rewrite bool_decide_eq_false_2. }
  rewrite (decide_False (P := String c a = "")); [|discriminate].
  change (foldl (filepath.clean_step false) [] [String c a; ""])
    with (filepath.clean_step false
            (filepath.clean_step false [] (String c a)) "").
  rewrite clean_step_empty. unfold filepath.clean_step.
  destruct (decide (String c a = "" ∨ String c a = ".")) as [[|Hd]|Hnd];
    [done|by rewrite Hd|].
  destruct (decide (String c a = "..")) as [Hdd|]; [by rewrite Hdd|].
  done.
Qed.

(** The script name and the file name of an entry one level deep. *)
Lemma split_one_slash (node : githubNode) :
  count_slash (Path node) = 1%nat →
  ∃ a b, Path node = a +:+ "/" +:+ b ∧
         count_slash a = 0%nat ∧ count_slash b = 0%nat ∧
         split node = (if decide (a = "") then "/" else a, b).
Proof.
  intros (a & b & Hp & Ha & Hb)%one_slash_inv. exists a, b.
  split_and!; [done..|]. unfold split.
  by rewrite Hp, Split_app, Clean_dir.
Qed.

(** ** The remote catalogue *)

Lemma elem_of_keys {V} range_keys (m : gmap string V) k :
  valid_order range_keys → k ∈ keys range_keys m ↔ is_Some (m !! k).
Proof.
  intros Hv. unfold keys. rewrite (Hv _).
  rewrite list_elem_of_fmap. split.
  - intros ([k' v] & -> & Hkv). apply elem_of_map_to_list in Hkv. by eexists.
  - intros [v Hv']. exists (k, v). split; [done|]. by apply elem_of_map_to_list.
Qed.

Lemma NoDup_keys {V} range_keys (m : gmap string V) :
  valid_order range_keys → NoDup (keys range_keys m).
Proof.
  intros Hv. unfold keys. rewrite (Hv _). apply NoDup_fst_map_to_list.
Qed.

Lemma script_names_fold nodes (acc : gmap string bool) x :
  is_Some (foldl (λ snames node,
                    if isScript node then <[(split node).1 := true]> snames
                    else snames) acc nodes !! x) ↔
  is_Some (acc !! x) ∨
  ∃ node, node ∈ nodes ∧ isScript node = true ∧ (split node).1 = x.
Proof.
  revert acc. induction nodes as [|node nodes IH]; intros acc; simpl.
  - split; [auto|]. intros [?|(? & ?%elem_of_nil & _)]; done.
  - rewrite IH. destruct (isScript node) eqn:Hs.
    + rewrite lookup_insert_is_Some. split.
      * intros [[Hx|[_ ?]]|(n & ? & ? & ?)]; [right|by left|right].
        -- exists node. split; [left|done].
        -- exists n. split; [by right|done].
      * intros [?|(n & [->|?]%elem_of_cons & ? & Hx)].
        -- destruct (decide ((split node).1 = x)); left; auto.
        -- left. by left.
        -- right. by exists n.
    + split.
      * intros [?|(n & ? & ? & ?)]; [by left|right].
        exists n. split; [by right|done].
      * intros [?|(n & [->|?]%elem_of_cons & Hn & ?)]; [by left|congruence|].
        right. by exists n.
Qed.

(** C9: the listing of the remote script names is ascending in the order
    of strings, has no duplicates, and holds exactly the script names of
    the entries whose path has exactly one separator; the script name of
    such an entry [a/b] is [a] (the root when [a] is empty). *)
Theorem scripts_sorted_exact range_keys (gt : githubTree) :
  valid_order range_keys →
  Sorted String.le (scripts range_keys gt) ∧
  NoDup (scripts range_keys gt) ∧
  (∀ x, x ∈ scripts range_keys gt ↔
        ∃ node, node ∈ Tree gt ∧ count_slash (Path node) = 1%nat ∧
                (split node).1 = x) ∧
  (∀ node, isScript node = true ↔ count_slash (Path node) = 1%nat) ∧
  (∀ node, count_slash (Path node) = 1%nat →
     ∃ a b, Path node = a +:+ "/" +:+ b ∧
            count_slash a = 0%nat ∧ count_slash b = 0%nat ∧
            split node = (if decide (a = "") then "/" else a, b)).
Proof.
  intros Hv. unfold scripts, sort_strings. split_and!.
  - apply Sorted_merge_sort, _.
  - rewrite merge_sort_Permutation. by apply NoDup_keys.
  - intros x. rewrite merge_sort_Permutation, elem_of_keys by done.
    unfold script_names. rewrite script_names_fold, lookup_empty.
    split.
    + intros [[? [=]]|(n & ? & Hs & ?)]. exists n.
      by apply bool_decide_eq_true in Hs.
    + intros (n & ? & Hs & ?). right. exists n.
      split_and!; [done| |done]. by apply bool_decide_eq_true.
  - intros node. unfold isScript. by rewrite bool_decide_eq_true.
  - apply split_one_slash.
Qed.

Lemma any_order_valid : valid_order any_order.
Proof. intros ks. reflexivity. Defined.

Lemma scripts_sorted_exact_witness :
  let gt := tree_of ["b/b"; "README.md"; "a/a"; "b/README.md"; "a/x/y"] in
  Sorted String.le (scripts any_order gt) ∧
  NoDup (scripts any_order gt) ∧
  (∀ x, x ∈ scripts any_order gt ↔
        ∃ node, node ∈ Tree gt ∧ count_slash (Path node) = 1%nat ∧
                (split node).1 = x) ∧
  (∀ node, isScript node = true ↔ count_slash (Path node) = 1%nat) ∧
  (∀ node, count_slash (Path node) = 1%nat →
     ∃ a b, Path node = a +:+ "/" +:+ b ∧
            count_slash a = 0%nat ∧ count_slash b = 0%nat ∧
            split node = (if decide (a = "") then "/" else a, b)).
Proof.
  apply (scripts_sorted_exact any_order
           (tree_of ["b/b"; "README.md"; "a/a"; "b/README.md"; "a/x/y"])).
  intros ks. reflexivity.
Defined.

Example scripts_example :
  scripts any_order (tree_of ["b/b"; "README.md"; "a/a"; "b/README.md"; "a/x/y"])
  = ["a"; "b"].
Proof. vm_compute. reflexivity. Qed.

(** ** Commands that stop before touching the file system *)

Lemma log_Fatal_run {A} text w :
  ∃ w', @log_Fatal A text w = (Exit 1, w') ∧
        fs w' = fs w ∧ stdout w' = stdout w ∧ umask w' = umask w.
Proof. eexists. split; [reflexivity|done]. Qed.

Lemma getLocalTree_run cpath w :
  (∃ lt, getLocalTree cpath w = (Ret lt, w)) ∨
  (∃ w', getLocalTree cpath w = (Exit 1, w') ∧
         fs w' = fs w ∧ stdout w' = stdout w ∧ umask w' = umask w).
Proof.
  unfold getLocalTree, bind, get_world.
  destruct (os.Readdir cpath w) as [err|fis]; [right|left].
  - apply log_Fatal_run.
  - by eexists.
Qed.

Ltac fatal := apply log_Fatal_run.

(** C5: [install] and [upgrade] of a script that the remote catalogue does
    not have, [install] of a script that is already installed, and
    [upgrade] of a script that is not installed, all end with exit status 1
    and leave the file system (and standard output) as they found it. *)
Theorem install_upgrade_refuse env range_keys (w : World) (S : string)
    (gt : githubTree) :
  flagArgs env = [S] →
  treeResponse env = inr gt →
  let stops (run : M unit) :=
    ∃ w', run w = (Exit 1, w') ∧ fs w' = fs w ∧ stdout w' = stdout w ∧
          umask w' = umask w in
  (scriptExists gt S = false →
     stops (install env range_keys) ∧ stops (upgrade env range_keys)) ∧
  (∀ cpath lt,
     scriptExists gt S = true →
     scriptsDir env = inr cpath →
     getLocalTree cpath w = (Ret lt, w) →
     (local_scriptExists lt S = true → stops (install env range_keys)) ∧
     (local_scriptExists lt S = false → stops (upgrade env range_keys))).
Proof.
  intros Hargs Htree stops. subst stops. simpl. split.
  - intros Hno. unfold install, upgrade, one_argument, bind at 1 3.
    rewrite Hargs. unfold ret at 1 2.
    unfold contribPath, getGithubTree, bind. rewrite Htree.
    destruct (scriptsDir env) as [err|cpath]; [split; fatal|].
    unfold ret at 1 2 3 4.
    destruct (getLocalTree_run cpath w) as [[lt ->]|(w' & -> & ?)];
      [|split; by exists w'].
    rewrite Hno. simpl. split; fatal.
  - intros cpath lt Hyes Hdir Hlt.
    unfold install, upgrade, one_argument, bind at 1 3.
    rewrite Hargs. unfold ret at 1 2.
    unfold contribPath, getGithubTree, bind. rewrite Htree, Hdir.
    unfold ret at 1 2 3 4. rewrite Hlt, Hyes. simpl.
    split; intros ->; simpl; fatal.
Qed.

Lemma install_upgrade_refuse_witness :
  let stops (w : World) (run : M unit) :=
    ∃ w', run w = (Exit 1, w') ∧ fs w' = fs w ∧ stdout w' = stdout w ∧
          umask w' = umask w in
  let absent := sample.run_with false ["bar"] (B "theirs") in
  let present := sample.run_with false ["foo"] (B "theirs") in
  stops sample.installed (install absent any_order) ∧
  stops sample.installed (upgrade absent any_order) ∧
  stops sample.installed (install present any_order) ∧
  stops sample.fresh (upgrade present any_order).
Proof.
  intros stops absent present.
  pose proof (install_upgrade_refuse absent any_order sample.installed "bar"
                sample.remote eq_refl eq_refl) as [Habsent _].
  pose proof (install_upgrade_refuse present any_order sample.installed "foo"
                sample.remote eq_refl eq_refl) as [_ Hinstalled].
  pose proof (install_upgrade_refuse present any_order sample.fresh "foo"
                sample.remote eq_refl eq_refl) as [_ Hfresh].
  destruct (Habsent eq_refl) as [H1 H2].
  destruct (Hinstalled "/etc/wingo/scripts"
              [{| ScriptName := "foo"; LPath := "/etc/wingo/scripts/foo" |}]
              eq_refl eq_refl eq_refl) as [H3 _].
  destruct (Hfresh "/etc/wingo/scripts" [] eq_refl eq_refl eq_refl) as [_ H4].
  exact (conj H1 (conj H2 (conj (H3 eq_refl) (H4 eq_refl)))).
Defined.

(** ** The command [info] *)

(** C10: for a script of the remote catalogue, [info] prints the bytes
    that the request for its README.md returned, between two newlines, and
    returns; when the status of the answer is 400 or more it prints the
    empty body and returns all the same. *)
Theorem info_prints_fetched env (w : World) (S : string) (gt : githubTree)
    (status : Z) (body : option (list byte)) :
  flagArgs env = [S] →
  treeResponse env = inr gt →
  scriptExists gt S = true →
  httpGet env (rawPrefix +:+ "/" +:+ S +:+ "/" +:+ "README.md")
    = HttpResponse status body →
  let prints (text : string) :=
    info env w = (Ret tt, {| fs := fs w; umask := umask w;
                             stdout := stdout w ++ [text];
                             stderr := stderr w |}) in
  (status < 400 → ∀ contents, body = Some contents →
     prints (nl +:+ Str contents +:+ nl)) ∧
  (400 ≤ status → prints (nl +:+ nl)).
Proof.
  intros Hargs Htree Hyes Hget prints. subst prints.
  assert (info env w =
            bind (downloadFile env S "README.md")
                 (λ readme, fmt_Printf (nl +:+ Str (slice_bytes readme) +:+ nl)) w)
    as ->.
  { unfold info, one_argument, getGithubTree. rewrite Hargs, Htree.
    unfold bind at 1 2, ret. by rewrite Hyes. }
  unfold downloadFile, bind. rewrite Hget. split.
  - intros Hlt contents ->. apply Z.ltb_lt in Hlt. by rewrite Hlt.
  - intros Hge. apply Z.ltb_ge in Hge. by rewrite Hge.
Qed.

Lemma info_prints_fetched_witness :
  let present := sample.run_with false ["foo"] (B "theirs") in
  let broken :=
    {| flagSkipConfig := false; flagArgs := ["foo"];
       scriptsDir := inr "/etc/wingo/scripts";
       treeResponse := inr sample.remote;
       httpGet := λ _, HttpResponse 404 (Some (B "Not Found")) |} in
  info present sample.fresh
    = (Ret tt, {| fs := fs sample.fresh; umask := 18;
                  stdout := [nl +:+ Str sample.readme +:+ nl];
                  stderr := [] |}) ∧
  info broken sample.fresh
    = (Ret tt, {| fs := fs sample.fresh; umask := 18;
                  stdout := [nl +:+ nl]; stderr := [] |}).
Proof.
  intros present broken. split.
  - refine (proj1 (info_prints_fetched present sample.fresh "foo" sample.remote
                     200 (Some sample.readme) eq_refl eq_refl eq_refl eq_refl)
                  _ sample.readme eq_refl).
    reflexivity.
  - refine (proj2 (info_prints_fetched broken sample.fresh "foo" sample.remote
                     404 (Some (B "Not Found")) eq_refl eq_refl eq_refl eq_refl)
                  _).
    discriminate.
Defined.

(** ** Cutting byte slices *)

Section cutting.
Context {A : Type} `{EqDecision A}.
Implicit Types sep s before after : list A.

Lemma has_prefix_true p s : has_prefix p s = true ↔ ∃ rest, s = p ++ rest.
Proof.
  revert s. induction p as [|a p IH]; intros s; simpl.
  - split; [by exists s|done].
  - destruct s as [|b s]; [split; [done|by intros [? ?]]|].
    rewrite andb_true_iff, bool_decide_eq_true, IH. split.
    + intros [-> [rest ->]]. by exists rest.
    + intros [rest [= -> ->]]. split; [done|by exists rest].
Qed.

Lemma cut_Some sep s before after :
  cut sep s = Some (before, after) → first_at sep s before after.
Proof.
  revert before after. induction s as [|c s IH]; intros before after.
  - simpl. destruct (has_prefix sep []) eqn:Hp; [|done].
    intros [= <- <-]. apply has_prefix_true in Hp as [rest Hp].
    symmetry in Hp. apply app_eq_nil in Hp as [-> ->].
    split; [done|]. intros; simpl; lia.
  - simpl. destruct (has_prefix sep (c :: s)) eqn:Hp.
    + intros [= <- <-]. apply has_prefix_true in Hp as [rest ->].
      split; [|intros; simpl; lia].
      simpl. by rewrite drop_app_length.
    + destruct (cut sep s) as [[b a]|] eqn:Hcut; [|done].
      intros [= <- <-]. destruct (IH _ _ eq_refl) as [-> Hmin].
      split; [done|]. intros [|c' b'] a' Heq.
      * simpl in Heq. apply not_true_iff_false in Hp. exfalso. apply Hp.
        apply has_prefix_true. by exists a'.
      * simpl in Heq. injection Heq as -> Heq.
        specialize (Hmin _ _ Heq). simpl. lia.
Qed.

Lemma cut_None sep s :
  cut sep s = None → ∀ before after, s ≠ before ++ sep ++ after.
Proof.
  induction s as [|c s IH]; simpl.
  - destruct (has_prefix sep []) eqn:Hp; [done|]. intros _ before after Heq.
    apply not_true_iff_false in Hp. apply Hp, has_prefix_true.
    destruct before; [by exists after|done].
  - destruct (has_prefix sep (c :: s)) eqn:Hp; [done|].
    destruct (cut sep s) as [[b a]|] eqn:Hcut; [done|].
    intros _ [|c' before] after Heq.
    + apply not_true_iff_false in Hp. apply Hp, has_prefix_true.
      by exists after.
    + injection Heq as _ Heq. by apply (IH eq_refl before after).
Qed.

Lemma first_at_cut sep s before after :
  first_at sep s before after → cut sep s = Some (before, after).
Proof.
  intros [Hs Hmin]. destruct (cut sep s) as [[b a]|] eqn:Hcut.
  - apply cut_Some in Hcut as [Hs' Hmin'].
    pose proof (Hmin _ _ Hs'). pose proof (Hmin' _ _ Hs).
    assert (length before = length b) as Hlen by lia.
    rewrite Hs in Hs'. apply app_inj_1 in Hs' as [-> Hs']; [|done].
    by apply app_inv_head in Hs' as ->.
  - by apply cut_None with (before := before) (after := after) in Hcut.
Qed.

Local Arguments cut : simpl never.

Lemma cut_shorter sep s before after :
  sep ≠ [] → cut sep s = Some (before, after) → (length after < length s)%nat.
Proof.
  intros Hsep [-> _]%cut_Some. rewrite !length_app.
  destruct sep; [done|]. simpl. lia.
Qed.

Lemma split_fuel_enough sep s n m :
  sep ≠ [] → (length s ≤ n)%nat → (length s ≤ m)%nat →
  split_fuel n sep s = split_fuel m sep s.
Proof.
  intros Hsep. revert s m. induction n as [|n IH]; intros s m Hn Hm.
  - destruct s; [|simpl in Hn; lia]. destruct m; [done|]. simpl.
    destruct (cut sep []) as [[b a]|] eqn:Hcut; [|done].
    apply cut_shorter in Hcut; [simpl in Hcut; lia|done].
  - simpl. destruct (cut sep s) as [[b a]|] eqn:Hcut.
    + pose proof (cut_shorter _ _ _ _ Hsep Hcut).
      destruct m as [|m]; [lia|]. simpl. rewrite Hcut. f_equal.
      apply IH; lia.
    + destruct m; simpl; by rewrite Hcut.
Qed.

(** [Split] cuts at the first instance of the separator and goes on with
    the rest. *)
Lemma Split_unfold s sep :
  sep ≠ [] →
  Split s sep = match cut sep s with
                | None => [s]
                | Some (before, after) => before :: Split after sep
                end.
Proof.
  intros Hsep. unfold Split. destruct s as [|c s].
  - simpl. destruct (cut sep []) as [[b a]|] eqn:Hcut; [|done].
    apply cut_shorter in Hcut; [simpl in Hcut; lia|done].
  - simpl. destruct (cut sep (c :: s)) as [[b a]|] eqn:Hcut; [|done].
    f_equal. apply cut_shorter in Hcut; [|done]. simpl in Hcut.
    apply split_fuel_enough; [done|lia|lia].
Qed.
End cutting.

(** ** Trimming *)

Section trimming.
Context {A : Type} `{EqDecision A}.
Implicit Types (runes : list (list A)) (s : list A).

Lemma runs_app runes l1 l2 :
  runs runes l1 → runs runes l2 → runs runes (l1 ++ l2).
Proof.
  induction 1 as [|r l Hr Hl IH]; intros H2; [done|].
  rewrite <- (assoc_L (++)). constructor; auto.
Qed.

Lemma runs_reverse runes l :
  runs (reverse <$> runes) l → runs runes (reverse l).
Proof.
  induction 1 as [|r l Hr Hl IH]; [constructor|].
  rewrite reverse_app. apply runs_app; [done|].
  apply list_elem_of_fmap in Hr as (r' & -> & Hr').
  rewrite reverse_involutive, <- (app_nil_r r'). by repeat constructor.
Qed.

Lemma strip_rune_Some runes s s' :
  strip_rune runes s = Some s' → ∃ r, r ∈ runes ∧ s = r ++ s'.
Proof.
  induction runes as [|r runes IH]; simpl; [done|].
  destruct (has_prefix r s) eqn:Hp.
  - intros [= <-]. apply has_prefix_true in Hp as [rest ->].
    exists r. split; [left|]. by rewrite drop_app_length.
  - intros (r' & ? & ?)%IH. exists r'. split; [by right|done].
Qed.

Lemma strip_rune_None runes s :
  strip_rune runes s = None → ∀ r rest, r ∈ runes → s ≠ r ++ rest.
Proof.
  induction runes as [|r runes IH]; simpl.
  - by intros _ r rest ?%elem_of_nil.
  - destruct (has_prefix r s) eqn:Hp; [done|].
    intros Hnone r' rest [->|Hr']%elem_of_cons.
    + intros ->. apply not_true_iff_false in Hp. apply Hp.
      apply has_prefix_true. by exists rest.
    + by apply IH.
Qed.

Lemma trim_fuel_spec runes fuel s :
  (∀ r, r ∈ runes → r ≠ []) → (length s ≤ fuel)%nat →
  ∃ l, runs runes l ∧ s = l ++ trim_fuel fuel runes s ∧
       strip_rune runes (trim_fuel fuel runes s) = None.
Proof.
  intros Hne. revert s. induction fuel as [|fuel IH]; intros s Hlen.
  - destruct s; [|simpl in Hlen; lia]. exists []. split; [constructor|].
    split; [done|]. simpl.
    destruct (strip_rune runes []) as [s'|] eqn:Hs; [|done].
    apply strip_rune_Some in Hs as (r & Hr & Heq).
    symmetry in Heq. apply app_eq_nil in Heq as [-> _]. by apply Hne in Hr.
  - simpl. destruct (strip_rune runes s) as [s'|] eqn:Hs.
    + apply strip_rune_Some in Hs as (r & Hr & ->).
      destruct (IH s') as (l & Hl & Hs' & Hnone).
      { pose proof (Hne r Hr). rewrite length_app in Hlen.
        destruct r; [done|]. simpl in Hlen. lia. }
      exists (r ++ l). split; [by constructor|].
      split; [|done]. by rewrite <- (assoc_L (++)), <- Hs'.
    + exists []. split; [constructor|]. by split.
Qed.

Lemma trim_front_spec runes s :
  (∀ r, r ∈ runes → r ≠ []) →
  ∃ l, runs runes l ∧ s = l ++ trim_front runes s ∧
       ∀ r rest, r ∈ runes → trim_front runes s ≠ r ++ rest.
Proof.
  intros Hne. destruct (trim_fuel_spec runes (length s) s Hne) as (l & ? & ? & Hn);
    [done|]. exists l. split_and!; [done..|]. by apply strip_rune_None.
Qed.
End trimming.

Lemma space_runes_not_nil r : r ∈ space_runes → r ≠ [].
Proof. intros Hr ->. revert Hr. by apply (bool_decide_unpack _). Qed.

(** [TrimSpace] removes the white space around its argument. *)
Lemma TrimSpace_trimmed s : trimmed s (TrimSpace s).
Proof.
  unfold TrimSpace.
  destruct (trim_front_spec space_runes s space_runes_not_nil)
    as (l & Hl & Hs & Hfront).
  set (m := trim_front space_runes s) in *.
  destruct (trim_front_spec (reverse <$> space_runes) (reverse m))
    as (l' & Hl' & Hm & Hback).
  { intros r (r' & -> & Hr')%list_elem_of_fmap Hnil.
    apply (space_runes_not_nil r' Hr').
    by rewrite <- (reverse_involutive r'), Hnil. }
  set (t := trim_front (reverse <$> space_runes) (reverse m)) in *.
  assert (m = reverse t ++ reverse l') as Hm'.
  { by rewrite <- reverse_app, <- Hm, reverse_involutive. }
  split_and!.
  - exists l, (reverse l'). split_and!; [by rewrite Hs, Hm'| done|].
    by apply runs_reverse.
  - intros r rest Hr Heq. apply (Hfront r (rest ++ reverse l') Hr).
    by rewrite Hm', Heq, <- (assoc_L (++)).
  - intros r rest Hr Heq. apply (Hback (reverse r) (reverse rest)).
    + apply list_elem_of_fmap. by exists r.
    + by rewrite <- reverse_app, <- Heq, reverse_involutive.
Qed.

(** ** The description of a README *)

Lemma app_longer_prefix {A} (x y u v : list A) :
  x ++ y = u ++ v → (length u ≤ length x)%nat →
  ∃ t, x = u ++ t ∧ v = t ++ y.
Proof.
  intros [(k & -> & ->)|(k & -> & ->)]%app_eq_inv Hlen; [by exists k|].
  rewrite length_app in Hlen. destruct k; [|simpl in Hlen; lia].
  exists []. by rewrite !app_nil_r.
Qed.

Lemma description_marker_not_nil : description_marker ≠ [].
Proof. discriminate. Qed.

Lemma blank_lines_not_nil : blank_lines ≠ [].
Proof. discriminate. Qed.

Lemma blank_lines_length : length blank_lines = 3%nat.
Proof. reflexivity. Qed.

(** C2 (the code fails the claim): on a README without the heading,
    [readDescription] stops with the panic of an index out of range. *)
Theorem readDescription_no_heading (readme : slice) :
  (∀ before after,
     slice_bytes readme ≠ before ++ description_marker ++ after) →
  readDescription readme = None.
Proof.
  intros Hno. unfold readDescription.
  rewrite Split_unfold by apply description_marker_not_nil.
  destruct (cut description_marker (slice_bytes readme)) as [[b a]|] eqn:Hcut;
    [|done].
  apply cut_Some in Hcut as [Hs _]. by apply Hno in Hs.
Qed.

Lemma readDescription_no_heading_witness :
  readDescription None = None ∧
  readDescription (Some (B "A script without a description.")) = None.
Proof.
  split.
  - apply (readDescription_no_heading None).
    apply cut_None. vm_compute. reflexivity.
  - apply (readDescription_no_heading
             (Some (B "A script without a description."))).
    apply cut_None. vm_compute. reflexivity.
Defined.

(** C7 (amended): when no further heading starts before the end of the
    first triple newline that follows the first heading, [readDescription]
    returns the text between that heading and that triple newline, without
    the white space around it. *)
Theorem readDescription_between (readme before text body rest : list byte) :
  first_at description_marker readme before text →
  first_at blank_lines text body rest →
  (∀ before' after', text = before' ++ description_marker ++ after' →
                     (length body + 3 ≤ length before')%nat) →
  readDescription (Some readme) = Some (Str (TrimSpace body)) ∧
  trimmed body (TrimSpace body).
Proof.
  intros Hhead Hblank Hnext. split; [|apply TrimSpace_trimmed].
  unfold readDescription. simpl.
  rewrite Split_unfold by apply description_marker_not_nil.
  rewrite (first_at_cut _ _ _ _ Hhead).
  rewrite Split_unfold by apply description_marker_not_nil.
  destruct (cut description_marker text) as [[chunk after]|] eqn:Hcut.
  - change ((before :: chunk :: Split after description_marker) !! 1%nat)
      with (Some chunk).
    apply cut_Some in Hcut as [Htext _]. pose proof (Hnext _ _ Htext) as Hlen.
    destruct Hblank as [Hbody Hmin].
    destruct (app_longer_prefix chunk (description_marker ++ after)
                (body ++ blank_lines) rest) as (t & Hchunk & _).
    { by rewrite <- Htext, <- (assoc_L (++)). }
    { rewrite length_app, blank_lines_length. lia. }
    rewrite <- (assoc_L (++)) in Hchunk.
    rewrite Split_unfold by apply blank_lines_not_nil.
    rewrite (first_at_cut blank_lines chunk body t); [done|].
    split; [done|]. intros before' after' Hchunk'.
    apply (Hmin before' (after' ++ description_marker ++ after)).
    by rewrite Htext, Hchunk', <- !(assoc_L (++)).
  - change ([before; text] !! 1%nat) with (Some text). cbv beta iota.
    rewrite Split_unfold by apply blank_lines_not_nil.
    by rewrite (first_at_cut _ _ _ _ Hblank).
Qed.

Lemma readDescription_between_witness :
  readDescription (Some sample.readme) = Some (Str (TrimSpace (B "Foo bar"))) ∧
  readDescription
    (Some (description_marker ++ B "a" ++ blank_lines ++
           description_marker ++ B "b"))
  = Some (Str (TrimSpace (B "a"))).
Proof.
  split.
  - refine (proj1 (readDescription_between sample.readme
             (B ("foo" +:+ nl +:+ "===" +:+ nl +:+ nl))
             (B ("Foo bar" +:+ nl +:+ nl +:+ nl +:+ "Example" +:+ nl))
             (B "Foo bar") (B ("Example" +:+ nl)) _ _ _)).
    + apply cut_Some. vm_compute. reflexivity.
    + apply cut_Some. vm_compute. reflexivity.
    + intros before' after' Htext. exfalso. revert Htext.
      apply cut_None. vm_compute. reflexivity.
  - refine (proj1 (readDescription_between _ []
             (B "a" ++ blank_lines ++ description_marker ++ B "b")
             (B "a") (description_marker ++ B "b") _ _ _)).
    + apply cut_Some. vm_compute. reflexivity.
    + apply cut_Some. vm_compute. reflexivity.
    + intros before' after' Htext.
      assert (first_at description_marker
                (B "a" ++ blank_lines ++ description_marker ++ B "b")
                (B "a" ++ blank_lines) (B "b")) as [_ Hmin].
      { apply cut_Some. vm_compute. reflexivity. }
      apply (Hmin _ _ Htext).
Defined.

(** C7 as stated fails: with a second heading before the first triple
    newline, the text between the first heading and that triple newline
    holds the second heading, and [readDescription] returns only what
    comes before it. *)
Lemma readDescription_second_heading :
  let body := B ("foo" +:+ nl) ++ description_marker ++ B "bar" in
  let text := body ++ blank_lines ++ B "rest" in
  let readme := description_marker ++ text in
  first_at description_marker readme [] text ∧
  first_at blank_lines text body (B "rest") ∧
  readDescription (Some readme) = Some "foo" ∧
  readDescription (Some readme) ≠ Some (Str (TrimSpace body)).
Proof.
  split_and!.
  - apply cut_Some. vm_compute. reflexivity.
  - apply cut_Some. vm_compute. reflexivity.
  - vm_compute. reflexivity.
  - vm_compute. discriminate.
Qed.

(** ** The command [search] *)

Lemma prefix_has_upper q s :
  String.prefix q s = true → has_upper q = true → has_upper s = true.
Proof.
  revert s. induction q as [|c q IH]; intros s; [done|].
  destruct s as [|d s]; [done|]. simpl.
  destruct (ascii_dec c d) as [->|]; [|done].
  intros Hp [Hc|Hq]%orb_true_iff; apply orb_true_iff; [by left|right; eauto].
Qed.

Lemma Contains_nil q : Contains "" q = String.prefix q "" || false.
Proof. reflexivity. Qed.

Lemma Contains_cons c s q :
  Contains (String c s) q = String.prefix q (String c s) || Contains s q.
Proof. reflexivity. Qed.

Lemma Contains_has_upper s q :
  Contains s q = true → has_upper q = true → has_upper s = true.
Proof.
  induction s as [|c s IH].
  - rewrite Contains_nil, orb_false_r. apply prefix_has_upper.
  - rewrite Contains_cons. intros [Hp|Hc]%orb_true_iff Hq.
    + by apply (prefix_has_upper q (String c s)).
    + simpl. apply orb_true_iff. right. by apply IH.
Qed.

Lemma ToLower_no_upper s : has_upper (ToLower s) = false.
Proof.
  induction s as [|c s IH]; [done|]. simpl. rewrite IH, orb_false_r.
  apply bool_decide_eq_false. unfold lower_ascii.
  destruct (decide (65 ≤ nat_of_ascii c ∧ nat_of_ascii c ≤ 90)%nat) as [Hc|Hc];
    [|done].
  rewrite nat_ascii_embedding by lia. lia.
Qed.

Lemma upper_query_never_matches description query :
  has_upper query = true → Contains (ToLower description) query = false.
Proof.
  intros Hq. apply not_true_iff_false. intros Hc.
  apply Contains_has_upper in Hc; [|done]. by rewrite ToLower_no_upper in Hc.
Qed.

Lemma quiet_ret {A} (a : A) : quiet (ret a).
Proof. done. Qed.

Lemma quiet_bind {A B} (c : M A) (k : A → M B) :
  quiet c → (∀ a, quiet (k a)) → quiet (bind c k).
Proof.
  intros Hc Hk w. unfold bind. specialize (Hc w).
  destruct (c w) as [[a|code|msg] w']; simpl in *; [|done..].
  destruct (Hk a w') as [-> ->]. done.
Qed.

Lemma quiet_log_Fatal {A} text : quiet (@log_Fatal A text).
Proof. done. Qed.

Lemma quiet_panic {A} msg : quiet (@panic A msg).
Proof. done. Qed.

Lemma quiet_getGithubTree env : quiet (getGithubTree env).
Proof. unfold getGithubTree. by destruct (treeResponse env). Qed.

Lemma quiet_downloadFile env scriptName fileName :
  quiet (downloadFile env scriptName fileName).
Proof.
  unfold downloadFile. destruct (httpGet env _) as [|status [|]]; [done|..];
    by destruct (status <? 400).
Qed.

Lemma quiet_dled env sname : quiet (dled env sname).
Proof.
  unfold dled. apply quiet_bind; [apply quiet_downloadFile|].
  intros readme. by destruct (readDescription readme).
Qed.

Lemma quiet_map_M {A B} (f : A → M B) xs :
  (∀ x, quiet (f x)) → quiet (map_M f xs).
Proof.
  intros Hf. induction xs as [|x xs IH]; [done|]. simpl.
  apply quiet_bind; [done|]. intros y.
  apply quiet_bind; [done|]. intros ys. apply quiet_ret.
Qed.

Lemma quiet_for_each {A} (xs : list A) body :
  (∀ x, quiet (body x)) → quiet (for_each xs body).
Proof.
  intros Hb. induction xs as [|x xs IH]; [done|]. simpl.
  by apply quiet_bind.
Qed.

(** C3 (the code fails the claim): only the description is put in lower
    case, the query is compared as typed.  A query with an upper-case
    letter therefore matches no description, and [search] prints
    nothing. *)
Theorem search_upper_case_query env range_keys (w : World) :
  has_upper (String.concat " " (flagArgs env)) = true →
  stdout (search env range_keys w).2 = stdout w.
Proof.
  intros Hq. cut (quiet (search env range_keys)); [intros Hquiet; apply Hquiet|].
  unfold search.
  apply quiet_bind; [apply quiet_getGithubTree|]. intros gt.
  apply quiet_bind; [apply quiet_map_M, quiet_dled|]. intros found.
  apply quiet_for_each. intros script.
  by rewrite upper_query_never_matches.
Qed.

(** The script [foo] is described as [Foo bar]; the query [Foo] is part of
    it, yet [search] returns without printing, while the query [foo]
    prints the script. *)
Lemma search_upper_case_query_witness :
  let asked := sample.run_with false ["Foo"] (B "theirs") in
  readDescription (Some sample.readme) = Some "Foo bar" ∧
  contains_ignoring_case "Foo bar" "Foo" = true ∧
  stdout (search asked any_order sample.fresh).2 = [] ∧
  (search asked any_order sample.fresh).1 = Ret tt ∧
  stdout (search (sample.run_with false ["foo"] (B "theirs")) any_order
            sample.fresh).2
  = ["foo" +:+ nl +:+ "    Foo bar" +:+ nl +:+ nl].
Proof.
  intros asked. split_and!.
  - vm_compute. reflexivity.
  - vm_compute. reflexivity.
  - apply (search_upper_case_query asked any_order sample.fresh).
    vm_compute. reflexivity.
  - vm_compute. reflexivity.
  - vm_compute. reflexivity.
Defined.

(** A script whose README.md cannot be fetched (or has no heading) stops
    the whole search with a panic, before anything is printed. *)
Example search_panics_without_description :
  search {| flagSkipConfig := false; flagArgs := [];
            scriptsDir := inr "/etc/wingo/scripts";
            treeResponse := inr sample.remote;
            httpGet := λ _, HttpResponse 404 (Some (B "Not Found")) |}
         any_order sample.fresh
  = (Panic "runtime error: index out of range", sample.fresh).
Proof. vm_compute. reflexivity. Qed.

(** ** Copying a script to the file system *)

Lemma copyFile_ok (s : contribScript) fileName dest contents (w : World) :
  index (Files s) fileName = Some contents →
  ¬ is_dir (fs w) dest →
  copyFile s fileName dest w = (Ret tt, written w dest contents).
Proof.
  intros Hc Hd. unfold copyFile, written, file_mode. rewrite Hc.
  unfold bind, os.Create, os.Write.
  destruct (fs w !! dest) as [[mode old|mode]|] eqn:Hdest.
  - simpl. rewrite lookup_insert_eq. unfold set_fs. simpl.
    by rewrite insert_insert_eq.
  - destruct Hd. by exists mode.
  - simpl. rewrite lookup_insert_eq. unfold set_fs. simpl.
    by rewrite insert_insert_eq.
Qed.

(** [copyFile] either writes the file or stops the process, the file
    system untouched. *)
Lemma copyFile_cases (s : contribScript) fileName dest (w : World) :
  (∃ contents, index (Files s) fileName = Some contents ∧
               ¬ is_dir (fs w) dest ∧
               copyFile s fileName dest w = (Ret tt, written w dest contents)) ∨
  ((index (Files s) fileName = None ∨ is_dir (fs w) dest) ∧
   ∃ w', copyFile s fileName dest w = (Exit 1, w') ∧ fs w' = fs w ∧
         stdout w' = stdout w ∧ umask w' = umask w).
Proof.
  destruct (index (Files s) fileName) as [contents|] eqn:Hc.
  - destruct (fs w !! dest) as [[mode old|mode]|] eqn:Hdest.
    + left. exists contents. split_and!; [done|by intros [? ?]; simplify_eq|].
      apply copyFile_ok; [done|]. intros [? ?]; simplify_eq.
    + right. split; [right; by exists mode|].
      unfold copyFile, bind, os.Create. rewrite Hc, Hdest.
      eexists. split; [reflexivity|done].
    + left. exists contents. split_and!; [done|by intros [? ?]; simplify_eq|].
      apply copyFile_ok; [done|]. intros [? ?]; simplify_eq.
  - right. split; [by left|]. unfold copyFile. rewrite Hc.
    eexists. split; [reflexivity|done].
Qed.

Lemma is_dir_written (w : World) dest contents path :
  ¬ is_dir (fs w) dest →
  is_dir (fs (written w dest contents)) path ↔ is_dir (fs w) path.
Proof.
  intros Hd. unfold is_dir, written. simpl.
  destruct (decide (dest = path)) as [->|Hne].
  - rewrite lookup_insert_eq. split; [by intros [? ?]|done].
  - by rewrite lookup_insert_ne.
Qed.

Section copying.
Variable s : contribScript.
Variable dest : string → string.

Lemma copy_each_ok names (w : World) :
  (∀ f, f ∈ names → is_Some (index (Files s) f)) →
  (∀ f, f ∈ names → ¬ is_dir (fs w) (dest f)) →
  copy_each s dest names w = (Ret tt, copied s dest names w).
Proof.
  revert w. induction names as [|f names IH]; intros w Hc Hd; [done|].
  unfold copy_each. simpl. unfold bind.
  destruct (Hc f) as [contents Hf]; [left|].
  rewrite (copyFile_ok s f (dest f) contents) by (auto; apply Hd; left).
  unfold contents_of. rewrite Hf. simpl. apply IH.
  - intros g Hg. apply Hc. by right.
  - intros g Hg. rewrite is_dir_written by (apply Hd; left).
    apply Hd. by right.
Qed.

Lemma copy_each_Ret_inv names (w w' : World) :
  copy_each s dest names w = (Ret tt, w') →
  (∀ f, f ∈ names → is_Some (index (Files s) f)) ∧
  (∀ f, f ∈ names → ¬ is_dir (fs w) (dest f)).
Proof.
  revert w. induction names as [|f names IH]; intros w.
  - intros _. split; intros f Hf; by apply elem_of_nil in Hf.
  - unfold copy_each. simpl. unfold bind.
    destruct (copyFile_cases s f (dest f) w)
      as [(contents & Hc & Hd & ->)|(_ & w1 & -> & _)]; [|done].
    intros [Hcs Hds]%IH. split; intros g [->|Hg]%elem_of_cons; eauto.
    specialize (Hds g Hg). by rewrite is_dir_written in Hds.
Qed.

(** A file without contents in memory stops the copy, wherever the range
    meets it. *)
Lemma copy_each_stops names f (w : World) :
  f ∈ names → index (Files s) f = None →
  ∃ w', copy_each s dest names w = (Exit 1, w').
Proof.
  intros Hin Hnil. revert w.
  induction names as [|g names IH]; intros w; [by apply elem_of_nil in Hin|].
  unfold copy_each. simpl. unfold bind.
  destruct (copyFile_cases s g (dest g) w)
    as [(contents & Hc & Hd & ->)|(_ & w1 & -> & _)]; [|by exists w1].
  apply elem_of_cons in Hin as [->|Hin]; [congruence|]. by apply IH.
Qed.

Lemma copied_frame names (w : World) :
  umask (copied s dest names w) = umask w ∧
  stdout (copied s dest names w) = stdout w ∧
  stderr (copied s dest names w) = stderr w.
Proof.
  revert w. induction names as [|f names IH]; intros w; [done|].
  simpl. by destruct (IH (written w (dest f) (contents_of s f))) as (-> & -> & ->).
Qed.

(** With distinct destinations, each file named ends with its contents in
    memory and the mode it had before (or that of a new file); every other
    path is left as it was. *)
Lemma copied_lookup names (w : World) :
  NoDup names →
  (∀ f g, f ∈ names → g ∈ names → dest f = dest g → f = g) →
  (∀ f, f ∈ names →
        fs (copied s dest names w) !! dest f
        = Some (File (file_mode w (dest f)) (contents_of s f))) ∧
  (∀ path, (∀ f, f ∈ names → path ≠ dest f) →
           fs (copied s dest names w) !! path = fs w !! path).
Proof.
  revert w. induction names as [|f names IH]; intros w Hnd Hinj.
  - split; [by intros f ?%elem_of_nil|done].
  - apply NoDup_cons in Hnd as [Hf Hnd]. simpl.
    destruct (IH (written w (dest f) (contents_of s f)) Hnd) as [Hin Hout].
    { intros g h Hg Hh. apply Hinj; by right. }
    assert (∀ g, g ∈ names → dest f ≠ dest g) as Hfresh.
    { intros g Hg Heq. apply Hinj in Heq; [|by left|by right]. by subst. }
    split.
    + intros g [->|Hg]%elem_of_cons.
      * rewrite Hout by done. unfold written. simpl.
        by rewrite lookup_insert_eq.
      * rewrite Hin by done. do 2 f_equal.
        unfold file_mode, written. simpl.
        by rewrite lookup_insert_ne by auto.
    + intros path Hpath. rewrite Hout.
      * unfold written. simpl. rewrite lookup_insert_ne; [done|].
        intros Heq. by apply (Hpath f); [left|].
      * intros g Hg. apply Hpath. by right.
Qed.

End copying.

Lemma for_each_filter {A} (P : A → Prop) `{∀ x, Decision (P x)}
    (xs : list A) (body : A → M unit) :
  for_each xs (λ x, if decide (P x) then body x else ret tt)
  = for_each (filter P xs) body.
Proof.
  induction xs as [|x xs IH]; [done|]. simpl. rewrite IH.
  rewrite filter_cons. by destruct (decide (P x)).
Qed.

(** ** Destinations *)

Lemma app_assoc_s (a b c : string) : (a +:+ b) +:+ c = a +:+ (b +:+ c).
Proof. induction a as [|x a IH]; [done|]. by rewrite !app_String, IH. Qed.

Lemma app_eq_empty (a b : string) : a +:+ b = "" → a = "" ∧ b = "".
Proof. by destruct a. Qed.

Lemma components_not_nil s : components s ≠ [].
Proof.
  destruct s as [|c s]; [done|]. simpl.
  destruct (decide (c = slash)); [done|]. by destruct (components s).
Qed.

Lemma components_snoc d f :
  count_slash f = 0%nat →
  components (d +:+ "/" +:+ f) = components d ++ [f].
Proof.
  intros Hf. induction d as [|c d IH].
  - rewrite app_empty_l. change ("/" +:+ f) with (String slash f).
    simpl. by rewrite components_no_slash.
  - rewrite (app_String c d). simpl. rewrite IH.
    destruct (decide (c = slash)); [done|].
    pose proof (components_not_nil d). by destruct (components d).
Qed.

Lemma rooted_app d x : d ≠ "" → filepath.rooted (d +:+ x) = filepath.rooted d.
Proof. by destruct d. Qed.

Lemma clean_step_plain r st f :
  plain_name f → filepath.clean_step r st f = f :: st.
Proof.
  intros (H1 & H2 & H3 & _). unfold filepath.clean_step.
  rewrite decide_False by (intros [?|?]; done). by rewrite decide_False.
Qed.

Lemma concat_snoc sep l f :
  String.concat sep (l ++ [f]) = concat_before sep l +:+ f.
Proof.
  induction l as [|x l IH]; [done|].
  change ((x :: l) ++ [f]) with (x :: (l ++ [f])).
  destruct (l ++ [f]) as [|y rest] eqn:Hl; [by destruct l|].
  change (String.concat sep (x :: y :: rest))
    with (x +:+ sep +:+ String.concat sep (y :: rest)).
  rewrite IH. simpl. by rewrite !app_assoc_s.
Qed.

(** Joining a directory and a plain name appends the name to a text that
    depends on the directory alone. *)
Lemma Join_plain d :
  ∃ before, ∀ f, plain_name f → filepath.Join d f = before +:+ f.
Proof.
  destruct (decide (d = "")) as [->|Hd].
  - exists "". intros f Hf. pose proof Hf as (H1 & H2 & H3 & H4).
    unfold filepath.Join. rewrite decide_True, decide_False by done.
    unfold filepath.Clean, filepath.clean_stack.
    rewrite components_no_slash by done.
    assert (filepath.rooted f = false) as ->.
    { destruct f as [|c f]; [done|]. simpl in *.
      destruct (decide (c = slash)); [done|]. by apply bool_decide_eq_false. }
    simpl. rewrite clean_step_plain by done.
    change (String.concat "/" (reverse [f])) with f.
    by rewrite decide_False.
  - exists ((if filepath.rooted d then "/" else "") +:+
            concat_before "/" (reverse (filepath.clean_stack d))).
    intros f Hf. pose proof Hf as (H1 & H2 & H3 & H4).
    unfold filepath.Join. rewrite decide_False by done.
    unfold filepath.Clean, filepath.clean_stack.
    rewrite rooted_app, components_snoc, foldl_snoc by done.
    rewrite clean_step_plain, reverse_cons, concat_snoc by done.
    destruct (filepath.rooted d).
    + by rewrite app_assoc_s.
    + rewrite decide_False; [done|]. by intros [_ ?]%app_eq_empty.
Qed.

Lemma Join_plain_inj d f g :
  plain_name f → plain_name g →
  filepath.Join d f = filepath.Join d g → f = g.
Proof.
  intros Hf Hg. destruct (Join_plain d) as [before Hjoin].
  rewrite !Hjoin by done. apply (inj _).
Qed.

Lemma length_app_s (a b : string) :
  String.length (a +:+ b) = (String.length a + String.length b)%nat.
Proof. induction a as [|c a IH]; [done|]. rewrite app_String. simpl. lia. Qed.

Lemma configName_plain S : count_slash S = 0%nat → plain_name (configName S).
Proof.
  intros HS. unfold plain_name, configName.
  split_and!; try (intros H%(f_equal String.length);
                   rewrite length_app_s in H; simpl in H; lia).
  by rewrite count_slash_app, HS.
Qed.

(** ** The local tree *)

Lemma local_scriptExists_true lt S :
  local_scriptExists lt S = true ↔ ∃ node, node ∈ lt ∧ ScriptName node = S.
Proof.
  induction lt as [|node lt IH]; simpl.
  - split; [done|]. by intros (? & ?%elem_of_nil & _).
  - destruct (bool_decide_reflect (ScriptName node = S)) as [Heq|Hne].
    + split; [|done]. intros _. exists node. split; [left|done].
    + rewrite IH. split.
      * intros (n & ? & ?). exists n. split; [by right|done].
      * intros (n & [->|?]%elem_of_cons & ?); [done|]. by exists n.
Qed.

(** A script is installed when the scripts directory has a directory of
    its name. *)
Lemma getLocalTree_exists cpath (w : World) lt S :
  getLocalTree cpath w = (Ret lt, w) →
  local_scriptExists lt S = true ↔
  ∃ path mode, fs w !! path = Some (Dir mode) ∧
               os.child_name cpath path = Some S.
Proof.
  unfold getLocalTree, bind, get_world, os.Readdir.
  destruct (fs w !! cpath) as [[?|?]|]; [done| |done].
  intros [= <-]. rewrite local_scriptExists_true. split.
  - intros (node & Hin & <-).
    apply list_elem_of_omap in Hin as ([name n] & Hin & Hnode).
    apply list_elem_of_omap in Hin as ([path n'] & Hin & Hname).
    apply elem_of_map_to_list in Hin. simpl in *.
    destruct (os.child_name cpath path) as [name'|] eqn:Hchild; [|done].
    simpl in Hname. injection Hname as -> ->.
    destruct n as [|mode]; [done|]. injection Hnode as <-.
    by exists path, mode.
  - intros (path & mode & Hpath & Hchild).
    exists {| ScriptName := S; LPath := filepath.Join cpath S |}.
    split; [|done]. apply list_elem_of_omap. exists (S, Dir mode).
    split; [|done]. apply list_elem_of_omap. exists (path, Dir mode).
    split; [by apply elem_of_map_to_list|]. simpl. by rewrite Hchild.
Qed.

Lemma getLocalTree_Ret cpath (w : World) :
  is_dir (fs w) cpath → ∃ lt, getLocalTree cpath w = (Ret lt, w).
Proof.
  intros [mode Hd]. unfold getLocalTree, bind, get_world, os.Readdir.
  rewrite Hd. by eexists.
Qed.

Lemma getLocalTree_Ret_inv cpath (w w' : World) lt :
  getLocalTree cpath w = (Ret lt, w') → w' = w ∧ is_dir (fs w) cpath.
Proof.
  unfold getLocalTree, bind, get_world, os.Readdir, is_dir.
  destruct (fs w !! cpath) as [[?|mode]|]; [done| |done].
  intros [= _ <-]. split; [done|]. by exists mode.
Qed.

Lemma child_name_no_slash dir path name :
  os.child_name dir path = Some name → count_slash name = 0%nat.
Proof.
  unfold os.child_name. destruct (os.strip_prefix _ path) as [rest|]; [|done].
  destruct (decide (rest ≠ "" ∧ count_slash rest = 0%nat)) as [[_ ?]|]; [|done].
  by intros [= <-].
Qed.

(** ** Downloading *)

Lemma pure_or_fatal_ret {A} (a : A) : pure_or_fatal (ret a).
Proof. left. by exists a. Qed.

Lemma pure_or_fatal_log_Fatal {A} text : pure_or_fatal (@log_Fatal A text).
Proof. right. intros w. apply log_Fatal_run. Qed.

Lemma pure_or_fatal_bind {A B} (c : M A) (k : A → M B) :
  pure_or_fatal c → (∀ a, pure_or_fatal (k a)) → pure_or_fatal (bind c k).
Proof.
  intros [[a Ha]|Hc] Hk.
  - destruct (Hk a) as [[b Hb]|Hka].
    + left. exists b. intros w. unfold bind. by rewrite Ha, Hb.
    + right. intros w. unfold bind. rewrite Ha. apply Hka.
  - right. intros w. unfold bind. destruct (Hc w) as (w' & -> & ?).
    by exists w'.
Qed.

Lemma pure_or_fatal_Ret {A} (c : M A) a (w w' : World) :
  pure_or_fatal c → c w = (Ret a, w') → ∀ w0, c w0 = (Ret a, w0).
Proof.
  intros [[b Hb]|Hc] Hw.
  - rewrite Hb in Hw. by injection Hw as ->.
  - destruct (Hc w) as (? & Hw' & _). congruence.
Qed.

Lemma pure_or_fatal_downloadFile env scriptName fileName :
  pure_or_fatal (downloadFile env scriptName fileName).
Proof.
  unfold downloadFile. destruct (httpGet env _) as [err|status [contents|]].
  - apply pure_or_fatal_log_Fatal.
  - destruct (status <? 400); apply pure_or_fatal_ret.
  - destruct (status <? 400);
      [apply pure_or_fatal_log_Fatal|apply pure_or_fatal_ret].
Qed.

Lemma pure_or_fatal_download_nodes env scriptName nodes files :
  pure_or_fatal (download_nodes env scriptName nodes files).
Proof.
  revert files. induction nodes as [|node nodes IH]; intros files; simpl.
  - apply pure_or_fatal_ret.
  - destruct (split node) as [sname fname].
    destruct (decide (sname = scriptName)); [|apply IH].
    apply pure_or_fatal_bind; [apply pure_or_fatal_downloadFile|].
    intros contents. apply IH.
Qed.

Lemma pure_or_fatal_download env gt scriptName :
  pure_or_fatal (download env gt scriptName).
Proof.
  unfold download.
  apply pure_or_fatal_bind; [apply pure_or_fatal_download_nodes|].
  intros files. simpl. destruct (index files "README.md").
  - unfold source. simpl. destruct (index files scriptName).
    + apply pure_or_fatal_ret.
    + apply pure_or_fatal_log_Fatal.
  - apply pure_or_fatal_log_Fatal.
Qed.

(** The files of a downloaded script are those of the entries listed under
    its name. *)
Lemma download_nodes_keys env scriptName nodes files files' (w w' : World) f :
  download_nodes env scriptName nodes files w = (Ret files', w') →
  is_Some (files' !! f) →
  is_Some (files !! f) ∨
  ∃ node, node ∈ nodes ∧ split node = (scriptName, f).
Proof.
  revert files w. induction nodes as [|node nodes IH]; intros files w; simpl.
  - intros [= <- _]. by left.
  - destruct (split node) as [sname fname] eqn:Hsplit.
    destruct (decide (sname = scriptName)) as [->|Hne].
    + unfold bind.
      destruct (downloadFile env scriptName fname w) as [[contents|?|?] w1];
        [|done..].
      intros Hrest Hf. destruct (IH _ _ Hrest Hf) as [Hin|(n & ? & ?)].
      * apply lookup_insert_is_Some in Hin as [<-|[_ ?]]; [right|by left].
        exists node. split; [left|done].
      * right. exists n. split; [by right|done].
    + intros Hrest Hf. destruct (IH _ _ Hrest Hf) as [?|(n & ? & ?)];
        [by left|right]. exists n. split; [by right|done].
Qed.

Lemma download_keys env gt scriptName script (w w' : World) f :
  download env gt scriptName w = (Ret script, w') →
  is_Some (Files script !! f) →
  Name script = scriptName ∧
  ∃ node, node ∈ Tree gt ∧ split node = (scriptName, f).
Proof.
  unfold download, bind.
  destruct (download_nodes env scriptName (Tree gt) ∅ w)
    as [[files|?|?] w1] eqn:Hnodes; [|done..].
  simpl. destruct (index files "README.md"); [|done].
  unfold source. simpl. destruct (index files scriptName); [|done].
  intros [= <- _]. simpl. intros Hf. split; [done|].
  destruct (download_nodes_keys _ _ _ _ _ _ _ _ Hnodes Hf) as [Hin|?]; [|done].
  rewrite lookup_empty in Hin. by destruct Hin.
Qed.

Lemma download_Name env gt scriptName script (w w' : World) :
  download env gt scriptName w = (Ret script, w') → Name script = scriptName.
Proof.
  unfold download, bind.
  destruct (download_nodes env scriptName (Tree gt) ∅ w)
    as [[files|?|?] w1]; [|done..].
  simpl. destruct (index files "README.md"); [|done].
  unfold source. simpl. destruct (index files scriptName); [|done].
  by intros [= <- _].
Qed.

Lemma download_mandatory env gt scriptName script (w w' : World) :
  download env gt scriptName w = (Ret script, w') →
  is_Some (index (Files script) "README.md") ∧
  is_Some (index (Files script) scriptName).
Proof.
  unfold download, bind.
  destruct (download_nodes env scriptName (Tree gt) ∅ w)
    as [[files|?|?] w1]; [|done..].
  simpl. destruct (index files "README.md") eqn:Hr; [|done].
  unfold source. simpl. destruct (index files scriptName) eqn:Hs; [|done].
  intros [= <- _]. simpl. by rewrite Hr, Hs.
Qed.

Lemma copyAll_copy_each range_keys (s : contribScript) scriptDir :
  copyAll range_keys s scriptDir
  = copy_each s (filepath.Join scriptDir) (keys range_keys (Files s)).
Proof. reflexivity. Qed.

(** ** Installing a script with a file that could not be fetched *)

(** C4 (the code fails the claim): [download] records an optional file
    whose request is answered with a status of 400 or more as a [nil]
    entry of the bundle and goes on, but [copyAll] then hands that entry
    to [copyFile], which stops the process on a [nil] entry: [install]
    ends with exit status 1 although both mandatory files are there. *)
Theorem install_absent_optional_file env range_keys (w : World)
    (S cpath : string) (gt : githubTree) (lt : list localNode)
    (script : contribScript) (f : string) :
  valid_order range_keys →
  flagArgs env = [S] →
  scriptsDir env = inr cpath →
  treeResponse env = inr gt →
  scriptExists gt S = true →
  getLocalTree cpath w = (Ret lt, w) →
  local_scriptExists lt S = false →
  fs w !! filepath.Join cpath S = None →
  download env gt S w = (Ret script, w) →
  Files script !! f = Some None →
  f ≠ "README.md" ∧ f ≠ S ∧
  ∃ w', install env range_keys w = (Exit 1, w').
Proof.
  intros Hv Hargs Hdir Htree Hyes Hlt Hno Hfree Hdl Hf.
  assert (index (Files script) f = None) as Hnil
    by (unfold index; by rewrite Hf).
  destruct (download_mandatory _ _ _ _ _ _ Hdl) as [[? Hr] [? Hs]].
  split; [congruence|]. split; [congruence|].
  unfold install, one_argument. rewrite Hargs.
  unfold contribPath, getGithubTree. rewrite Hdir, Htree.
  unfold bind at 1 2 3 4, ret at 1 2 3. rewrite Hlt, Hyes, Hno. simpl.
  unfold bind at 1, os.Mkdir. rewrite Hfree.
  unfold bind at 1.
  rewrite (pure_or_fatal_Ret _ _ _ _ (pure_or_fatal_download env gt S) Hdl).
  rewrite copyAll_copy_each. unfold bind.
  destruct (copy_each_stops script (filepath.Join (filepath.Join cpath S))
              (keys range_keys (Files script)) f
              (set_fs <[filepath.Join cpath S := Dir (Z.land 511 (Z.lnot (umask w)))]> w))
    as [w' ->]; [|done|by exists w'].
  apply elem_of_keys; [done|]. by rewrite Hf.
Qed.

Lemma install_absent_optional_file_witness :
  download (broken.run ["foo"]) broken.remote "foo" sample.fresh
    = (Ret broken.bundle, sample.fresh) ∧
  "doc" ≠ "README.md" ∧ "doc" ≠ "foo" ∧
  ∃ w', install (broken.run ["foo"]) any_order sample.fresh = (Exit 1, w').
Proof.
  split; [vm_compute; reflexivity|].
  apply (install_absent_optional_file (broken.run ["foo"]) any_order
           sample.fresh "foo" "/etc/wingo/scripts" broken.remote []
           broken.bundle "doc").
  - intros ks. reflexivity.
  - reflexivity.
  - reflexivity.
  - reflexivity.
  - reflexivity.
  - reflexivity.
  - reflexivity.
  - vm_compute. reflexivity.
  - vm_compute. reflexivity.
  - vm_compute. reflexivity.
Defined.

(** The run on the sample machine, the range in the order of the model:
    the directory is made, the source and the README are written, and the
    process stops at the entry [doc]. *)
Example install_broken_script_run :
  install (broken.run ["foo"]) any_order sample.fresh
  = (Exit 1,
     {| fs := {[ "/etc/wingo/scripts" := Dir 493;
                 "/etc/wingo/scripts/foo" := Dir 493;
                 "/etc/wingo/scripts/foo/foo" := File 420 (B "#!/bin/sh");
                 "/etc/wingo/scripts/foo/README.md" := File 420 sample.readme ]};
        umask := 18; stdout := [];
        stderr := ["BUG: Could not find file %s in memory.doc" +:+ nl] |}).
Proof. vm_compute. reflexivity. Qed.

(** ** Upgrading *)

Lemma upgrade_ready_run env range_keys (w : World) S cpath gt script :
  upgrade_ready env w S cpath gt script →
  upgrade env range_keys w
  = upgrade_files env range_keys S script (filepath.Join cpath S)
      {| ScriptName := S; LPath := filepath.Join cpath S |} w.
Proof.
  intros (Hargs & Hdir & Htree & Hyes & (lt & Hlt & Hloc) & Hdl).
  unfold upgrade, one_argument. rewrite Hargs.
  unfold contribPath, getGithubTree. rewrite Hdir, Htree.
  unfold bind at 1 2 3 4, ret at 1 2 3. rewrite Hlt, Hyes, Hloc. simpl.
  unfold bind at 1. by rewrite Hdl.
Qed.

Lemma upgrade_ready_name env (w : World) S cpath gt script :
  upgrade_ready env w S cpath gt script →
  Name script = S ∧ count_slash S = 0%nat.
Proof.
  intros (_ & _ & _ & _ & (lt & Hlt & Hloc) & Hdl).
  split; [by apply download_Name in Hdl|].
  apply (getLocalTree_exists _ _ _ S Hlt) in Hloc as (path & mode & _ & Hc).
  by apply child_name_no_slash in Hc.
Qed.

(** The copy of the files selected by [which], in the order of the
    range. *)
Lemma copy_selected range_keys (script : contribScript) (w : World)
    scriptDir (which : string → Prop) `{∀ f, Decision (which f)} :
  valid_order range_keys →
  plain_files script →
  fetched script w scriptDir which →
  ∃ w',
    copy_each script (filepath.Join scriptDir)
      (filter which (keys range_keys (Files script))) w = (Ret tt, w') ∧
    copies script w scriptDir which w'.
Proof.
  intros Hv Hplain Hfetched.
  set (names := filter which (keys range_keys (Files script))).
  assert (∀ f, f ∈ names ↔ which f ∧ is_Some (Files script !! f)) as Hnames.
  { intros f. unfold names. by rewrite list_elem_of_filter, elem_of_keys. }
  exists (copied script (filepath.Join scriptDir) names w). split.
  - apply copy_each_ok; intros f [Hw [contents Hf]]%Hnames;
      destruct (Hfetched f contents Hf Hw) as [[c ->] Hd]; [|done].
    unfold index. by rewrite Hf.
  - destruct (copied_lookup script (filepath.Join scriptDir) names w)
      as [Hin Hout].
    { apply NoDup_filter. by apply NoDup_keys. }
    { intros f g [_ [? Hf]]%Hnames [_ [? Hg]]%Hnames.
      apply Join_plain_inj; by eapply Hplain. }
    destruct (copied_frame script (filepath.Join scriptDir) names w)
      as (_ & Hout' & Herr).
    split_and!; [|..|done|done].
    + intros f contents Hw Hf. rewrite Hin.
      * unfold contents_of, index. by rewrite Hf.
      * apply Hnames. by rewrite Hf.
    + intros path Hpath. apply Hout. intros f [? ?]%Hnames. by apply Hpath.
Qed.

Lemma bind_Ret {A B} (c : M A) (k : A → M B) a (w w' : World) :
  c w = (Ret a, w') → bind c k w = k a w'.
Proof. intros Hc. unfold bind. by rewrite Hc. Qed.

Lemma hasConfig_run (ln : localNode) (w : World) :
  hasConfig ln w
  = (Ret (bool_decide
            (is_Some (fs w !! filepath.Join (LPath ln)
                                (configName (ScriptName ln))))), w).
Proof.
  unfold hasConfig, bind, get_world, os.Stat.
  by destruct (fs w !! _).
Qed.

Lemma readConfig_file (ln : localNode) (w : World) mode data :
  fs w !! filepath.Join (LPath ln) (configName (ScriptName ln))
    = Some (File mode data) →
  readConfig ln w = (Ret (Some data), w).
Proof.
  intros Hf. unfold readConfig, bind, get_world, os.ReadFile. by rewrite Hf.
Qed.

Lemma filter_True {A} (l : list A) : filter (λ _, True) l = l.
Proof.
  induction l as [|x l IH]; [done|]. rewrite filter_cons. simpl. by rewrite IH.
Qed.

(** With [--skip-config]: every file but the configuration file is
    written, and the local configuration is left alone. *)
Lemma upgrade_skip_config_copies env range_keys (w : World) (S cpath : string)
    (gt : githubTree) (script : contribScript) :
  valid_order range_keys →
  upgrade_ready env w S cpath gt script →
  plain_files script →
  flagSkipConfig env = true →
  fetched script w (filepath.Join cpath S) (λ f, f ≠ configName S) →
  ∃ w', upgrade env range_keys w = (Ret tt, w') ∧
        copies script w (filepath.Join cpath S) (λ f, f ≠ configName S) w' ∧
        fs w' !! filepath.Join (filepath.Join cpath S) (configName S)
        = fs w !! filepath.Join (filepath.Join cpath S) (configName S).
Proof.
  intros Hv Hready Hplain Hskip Hfetched.
  destruct (upgrade_ready_name _ _ _ _ _ _ Hready) as [Hname HS].
  rewrite (upgrade_ready_run _ range_keys _ _ _ _ _ Hready).
  unfold upgrade_files. rewrite Hskip.
  rewrite (for_each_filter (λ f, f ≠ configName S)).
  destruct (copy_selected range_keys script w (filepath.Join cpath S)
              (λ f, f ≠ configName S) Hv Hplain Hfetched) as (w' & Hrun & Hc).
  exists w'. split_and!; [done..|].
  destruct Hc as (_ & Hout & _). apply Hout.
  intros f [? Hf] Hne Heq. apply Hne. symmetry.
  apply (Join_plain_inj (filepath.Join cpath S));
    [by apply configName_plain|by eapply Hplain|done].
Qed.

(** C1: once the bundle is downloaded, [upgrade] decides in this order.
    With [--skip-config] every file of the bundle but the configuration
    file is written and the local configuration is left alone.  Otherwise,
    when there is no local configuration, or none in the bundle, or both
    hold the same bytes, every file of the bundle is written.  Otherwise
    nothing is written and the log asks for manual intervention.  (The
    files written are supposed to have contents in memory and a
    destination that is not a directory.) *)
Theorem upgrade_reconciliation env range_keys (w : World) (S cpath : string)
    (gt : githubTree) (script : contribScript) :
  valid_order range_keys →
  upgrade_ready env w S cpath gt script →
  plain_files script →
  let scriptDir := filepath.Join cpath S in
  let cfg := filepath.Join scriptDir (configName S) in
  (flagSkipConfig env = true →
   fetched script w scriptDir (λ f, f ≠ configName S) →
   ∃ w', upgrade env range_keys w = (Ret tt, w') ∧
         copies script w scriptDir (λ f, f ≠ configName S) w' ∧
         fs w' !! cfg = fs w !! cfg) ∧
  (flagSkipConfig env = false →
   (fs w !! cfg = None ∨ config script = None ∨
    ∃ mode mine, fs w !! cfg = Some (File mode mine) ∧
                 config script = Some mine) →
   fetched script w scriptDir (λ _, True) →
   ∃ w', upgrade env range_keys w = (Ret tt, w') ∧
         copies script w scriptDir (λ _, True) w') ∧
  (flagSkipConfig env = false →
   ∀ mode mine theirs,
     fs w !! cfg = Some (File mode mine) →
     config script = Some theirs →
     mine ≠ theirs →
     ∃ w', upgrade env range_keys w = (Ret tt, w') ∧
           fs w' = fs w ∧ stdout w' = stdout w ∧
           "MANUAL INTERVENTION REQUIRED!" +:+ nl ∈ stderr w').
Proof.
  intros Hv Hready Hplain scriptDir cfg.
  destruct (upgrade_ready_name _ _ _ _ _ _ Hready) as [Hname HS].
  split_and!.
  - intros Hskip Hfetched. by apply (upgrade_skip_config_copies _ _ _ _ _ gt).
  - intros Hskip Hsame Hfetched.
    rewrite (upgrade_ready_run _ range_keys _ _ _ _ _ Hready).
    fold scriptDir. unfold upgrade_files. rewrite Hskip.
    destruct (copy_selected range_keys script w scriptDir
                (λ _, True) Hv Hplain Hfetched) as (w' & Hrun & Hc).
    rewrite filter_True in Hrun. exists w'. split; [|done].
    erewrite bind_Ret by apply hasConfig_run. simpl. fold scriptDir cfg.
    destruct Hsame as [Hnone|[Hnone|(mode & mine & Hmine & Htheirs)]].
    + rewrite Hnone, bool_decide_eq_false_2 by (by intros [? ?]). simpl.
      erewrite bind_Ret by reflexivity. by rewrite copyAll_copy_each.
    + rewrite Hnone.
      erewrite bind_Ret by (destruct (negb _); reflexivity).
      by rewrite copyAll_copy_each.
    + rewrite Hmine, Htheirs, bool_decide_eq_true_2 by done. simpl.
      erewrite bind_Ret.
      2:{ erewrite bind_Ret; [reflexivity|].
          apply (readConfig_file _ _ mode mine). simpl. by fold scriptDir cfg. }
      unfold bytes_Equal. rewrite bool_decide_eq_true_2 by done.
      by rewrite copyAll_copy_each.
  - intros Hskip mode mine theirs Hmine Htheirs Hne.
    rewrite (upgrade_ready_run _ range_keys _ _ _ _ _ Hready).
    fold scriptDir. unfold upgrade_files. rewrite Hskip.
    erewrite bind_Ret by apply hasConfig_run. simpl. fold scriptDir cfg.
    rewrite Hmine, Htheirs, bool_decide_eq_true_2 by done. simpl.
    erewrite bind_Ret.
    2:{ erewrite bind_Ret; [reflexivity|].
        apply (readConfig_file _ _ mode mine). simpl. by fold scriptDir cfg. }
    unfold bytes_Equal. rewrite bool_decide_eq_false_2 by (simpl; congruence).
    eexists. split; [reflexivity|]. simpl. split_and!; [done..|].
    rewrite !elem_of_app. do 4 left. right. by apply list_elem_of_singleton.
Qed.

Lemma sample_ready skip cfg :
  upgrade_ready (sample.run_with skip ["foo"] cfg) sample.installed
    "foo" "/etc/wingo/scripts" sample.remote (sample_bundle cfg).
Proof.
  split_and!; try reflexivity.
  exists [{| ScriptName := "foo"; LPath := "/etc/wingo/scripts/foo" |}].
  split; reflexivity.
Defined.

Lemma upgrade_reconciliation_witness :
  let dir := "/etc/wingo/scripts/foo" in
  (∃ w', upgrade (sample.run_with true ["foo"] (B "theirs")) any_order
           sample.installed = (Ret tt, w') ∧
         copies (sample_bundle (B "theirs")) sample.installed dir
           (λ f, f ≠ "foo.cfg") w' ∧
         fs w' !! "/etc/wingo/scripts/foo/foo.cfg"
         = Some (File 420 (B "mine"))) ∧
  (∃ w', upgrade (sample.run_with false ["foo"] (B "mine")) any_order
           sample.installed = (Ret tt, w') ∧
         copies (sample_bundle (B "mine")) sample.installed dir
           (λ _, True) w') ∧
  (∃ w', upgrade (sample.run_with false ["foo"] (B "theirs")) any_order
           sample.installed = (Ret tt, w') ∧
         fs w' = fs sample.installed ∧ stdout w' = [] ∧
         "MANUAL INTERVENTION REQUIRED!" +:+ nl ∈ stderr w').
Proof.
  intros dir. split_and!.
  - refine (proj1 (upgrade_reconciliation
                     (sample.run_with true ["foo"] (B "theirs")) any_order
                     sample.installed "foo" "/etc/wingo/scripts" sample.remote
                     (sample_bundle (B "theirs")) any_order_valid
                     (sample_ready true (B "theirs")) _) eq_refl _).
    + apply (bool_decide_unpack _). vm_compute. exact I.
    + apply (bool_decide_unpack _). vm_compute. exact I.
  - refine (proj1 (proj2 (upgrade_reconciliation
                     (sample.run_with false ["foo"] (B "mine")) any_order
                     sample.installed "foo" "/etc/wingo/scripts" sample.remote
                     (sample_bundle (B "mine")) any_order_valid
                     (sample_ready false (B "mine")) _)) eq_refl _ _).
    + apply (bool_decide_unpack _). vm_compute. exact I.
    + right. right. exists 420, (B "mine"). split; reflexivity.
    + apply (bool_decide_unpack _). vm_compute. exact I.
  - refine (proj2 (proj2 (upgrade_reconciliation
                     (sample.run_with false ["foo"] (B "theirs")) any_order
                     sample.installed "foo" "/etc/wingo/scripts" sample.remote
                     (sample_bundle (B "theirs")) any_order_valid
                     (sample_ready false (B "theirs")) _)) eq_refl
                  420 (B "mine") (B "theirs") eq_refl eq_refl _).
    + apply (bool_decide_unpack _). vm_compute. exact I.
    + vm_compute. discriminate.
Defined.

(** The three runs on the sample machine. *)
Example sample_upgrade_skipping_config :
  upgrade (sample.run_with true ["foo"] (B "theirs")) any_order sample.installed
  = (Ret tt,
     {| fs := {[ "/etc/wingo/scripts" := Dir 493;
                 "/etc/wingo/scripts/foo" := Dir 493;
                 "/etc/wingo/scripts/foo/README.md" := File 420 sample.readme;
                 "/etc/wingo/scripts/foo/foo" := File 493 (B "#!/bin/sh");
                 "/etc/wingo/scripts/foo/foo.cfg" := File 420 (B "mine") ]};
        umask := 18; stdout := []; stderr := [] |}).
Proof. vm_compute. reflexivity. Qed.

Example sample_upgrade_same_config :
  upgrade (sample.run_with false ["foo"] (B "mine")) any_order sample.installed
  = (Ret tt,
     {| fs := {[ "/etc/wingo/scripts" := Dir 493;
                 "/etc/wingo/scripts/foo" := Dir 493;
                 "/etc/wingo/scripts/foo/README.md" := File 420 sample.readme;
                 "/etc/wingo/scripts/foo/foo" := File 493 (B "#!/bin/sh");
                 "/etc/wingo/scripts/foo/foo.cfg" := File 420 (B "mine") ]};
        umask := 18; stdout := []; stderr := [] |}).
Proof. vm_compute. reflexivity. Qed.

Example sample_upgrade_conflict :
  let r := upgrade (sample.run_with false ["foo"] (B "theirs")) any_order
             sample.installed in
  r.1 = Ret tt ∧ fs r.2 = fs sample.installed ∧
  length (stderr r.2) = 5%nat.
Proof. vm_compute. done. Qed.

(** ** Upgrading twice *)

Lemma written_same (w : World) dest mode contents :
  fs w !! dest = Some (File mode contents) → written w dest contents = w.
Proof.
  intros Hd. unfold written, file_mode, set_fs. rewrite Hd.
  rewrite insert_id by done. by destruct w.
Qed.

(** Copying files that are there already, with the same contents, changes
    nothing. *)
Lemma copied_same (s : contribScript) (dest : string → string) names (w : World) :
  (∀ f, f ∈ names →
        ∃ mode, fs w !! dest f = Some (File mode (contents_of s f))) →
  copied s dest names w = w.
Proof.
  induction names as [|f names IH]; intros Hnames; [done|]. simpl.
  destruct (Hnames f) as [mode Hf]; [left|].
  rewrite (written_same _ _ _ _ Hf). apply IH.
  intros g Hg. apply Hnames. by right.
Qed.

(** C8: with [--skip-config] and the same remote content, a second
    [upgrade] (whatever the order of its range) returns and leaves the
    world exactly as the first one left it: every file of the bundle but
    the configuration file holds the remote bytes after both runs, and the
    local configuration file is the one from before the first run. *)
Theorem upgrade_skip_config_twice env range_keys1 range_keys2 (w : World)
    (S cpath : string) (gt : githubTree) (script : contribScript) :
  valid_order range_keys1 →
  valid_order range_keys2 →
  flagSkipConfig env = true →
  upgrade_ready env w S cpath gt script →
  plain_files script →
  fetched script w (filepath.Join cpath S) (λ f, f ≠ configName S) →
  let scriptDir := filepath.Join cpath S in
  let cfg := filepath.Join scriptDir (configName S) in
  ∃ w1,
    upgrade env range_keys1 w = (Ret tt, w1) ∧
    upgrade env range_keys2 w1 = (Ret tt, w1) ∧
    (∀ f contents,
       f ≠ configName S → Files script !! f = Some (Some contents) →
       ∃ mode, fs w1 !! filepath.Join scriptDir f = Some (File mode contents)) ∧
    fs w1 !! cfg = fs w !! cfg.
Proof.
  intros Hv1 Hv2 Hskip Hready Hplain Hfetched scriptDir cfg.
  destruct (upgrade_skip_config_copies env range_keys1 w S cpath gt script)
    as (w1 & Hrun1 & (Hin & Hout & _) & Hcfg); [done..|].
  fold scriptDir in Hin, Hout, Hfetched.
  exists w1. split_and!; [done| |eauto|done].
  destruct (upgrade_ready_name _ _ _ _ _ _ Hready) as [Hname HS].
  assert (∀ path, is_dir (fs w) path → is_dir (fs w1) path) as Hdirs.
  { intros path [mode Hpath]. exists mode. rewrite Hout; [done|].
    intros f [contents Hf] Hne ->.
    destruct (Hfetched f contents Hf Hne) as [_ Hnd]. apply Hnd. by exists mode. }
  assert (upgrade_ready env w1 S cpath gt script) as Hready1.
  { destruct Hready as (Hargs & Hdir & Htree & Hyes & (lt & Hlt & Hloc) & Hdl).
    split_and!; [done..| |].
    - destruct (getLocalTree_Ret_inv _ _ _ _ Hlt) as [_ Hcp].
      destruct (getLocalTree_Ret cpath w1 (Hdirs _ Hcp)) as [lt1 Hlt1].
      exists lt1. split; [done|].
      apply (getLocalTree_exists _ _ _ S Hlt1).
      apply (getLocalTree_exists _ _ _ S Hlt) in Hloc
        as (path & mode & Hpath & Hchild).
      destruct (Hdirs path) as [mode1 Hpath1]; [by exists mode|].
      by exists path, mode1.
    - apply (pure_or_fatal_Ret _ _ _ _ (pure_or_fatal_download env gt S) Hdl). }
  rewrite (upgrade_ready_run _ range_keys2 _ _ _ _ _ Hready1).
  unfold upgrade_files. rewrite Hskip.
  rewrite (for_each_filter (λ f, f ≠ configName S)).
  fold scriptDir.
  fold (copy_each script (filepath.Join scriptDir)
          (filter (λ f, f ≠ configName S) (keys range_keys2 (Files script)))).
  assert (∀ f, f ∈ filter (λ f, f ≠ configName S)
                     (keys range_keys2 (Files script)) →
               ∃ mode, fs w1 !! filepath.Join scriptDir f
                       = Some (File mode (contents_of script f))) as Hthere.
  { intros f [Hne Hk]%list_elem_of_filter.
    apply elem_of_keys in Hk as [contents Hf]; [|done].
    destruct (Hfetched f contents Hf Hne) as [[c ->] _].
    exists (file_mode w (filepath.Join scriptDir f)).
    rewrite (Hin f c Hne Hf). unfold contents_of, index. by rewrite Hf. }
  rewrite copy_each_ok.
  - by rewrite copied_same.
  - intros f Hf. pose proof Hf as [Hne Hk]%list_elem_of_filter.
    apply elem_of_keys in Hk as [contents Hc]; [|done].
    destruct (Hfetched f contents Hc Hne) as [[c ->] _].
    unfold index. by rewrite Hc.
  - intros f [mode Hf]%Hthere [mode' Hd]. congruence.
Qed.
Lemma reverse_order_valid : valid_order reverse.
Proof. intros ks. apply reverse_Permutation. Defined.

Lemma upgrade_skip_config_twice_witness :
  let env := sample.run_with true ["foo"] (B "theirs") in
  ∃ w1,
    upgrade env any_order sample.installed = (Ret tt, w1) ∧
    upgrade env reverse w1 = (Ret tt, w1) ∧
    (∀ f contents,
       f ≠ "foo.cfg" →
       Files (sample_bundle (B "theirs")) !! f = Some (Some contents) →
       ∃ mode, fs w1 !! filepath.Join "/etc/wingo/scripts/foo" f
               = Some (File mode contents)) ∧
    fs w1 !! "/etc/wingo/scripts/foo/foo.cfg" = Some (File 420 (B "mine")).
Proof.
  intros env.
  refine (upgrade_skip_config_twice env any_order reverse sample.installed
            "foo" "/etc/wingo/scripts" sample.remote
            (sample_bundle (B "theirs")) any_order_valid reverse_order_valid
            eq_refl (sample_ready true (B "theirs")) _ _).
  - apply (bool_decide_unpack _). vm_compute. exact I.
  - apply (bool_decide_unpack _). vm_compute. exact I.
Defined.

(** * Further properties of the program *)

(** ** The catalogue *)

Lemma nodes_scriptExists_true nodes S :
  nodes_scriptExists nodes S = true ↔
  ∃ node, node ∈ nodes ∧ isScript node = true ∧ (split node).1 = S.
Proof.
  induction nodes as [|node nodes IH]; simpl.
  - split; [done|]. by intros (? & ?%elem_of_nil & _).
  - destruct (isScript node) eqn:Hs; simpl.
    + destruct (bool_decide_reflect ((split node).1 = S)) as [Heq|Hne].
      * split; [|done]. intros _. exists node. split; [left|done].
      * rewrite IH. split.
        -- intros (n & ? & ?). exists n. split; [by right|done].
        -- intros (n & [->|?]%elem_of_cons & ? & ?); [done|]. by exists n.
    + rewrite IH. split.
      * intros (n & ? & ?). exists n. split; [by right|done].
      * intros (n & [->|?]%elem_of_cons & ? & ?); [congruence|]. by exists n.
Qed.

(** X1: the two views of the remote catalogue agree: [scriptExists]
    answers true for a name exactly when [scripts] lists it. *)
Theorem scriptExists_iff_listed range_keys (gt : githubTree) (S : string) :
  valid_order range_keys →
  scriptExists gt S = true ↔ S ∈ scripts range_keys gt.
Proof.
  intros Hv. unfold scriptExists, scripts, sort_strings.
  rewrite nodes_scriptExists_true, merge_sort_Permutation, elem_of_keys by done.
  unfold script_names. rewrite script_names_fold, lookup_empty.
  split; [by right|]. by intros [[? [=]]|?].
Qed.

Lemma scriptExists_iff_listed_witness :
  scriptExists sample.remote "foo" = true ↔
  "foo" ∈ scripts reverse sample.remote.
Proof.
  apply (scriptExists_iff_listed reverse sample.remote "foo").
  intros ks. apply reverse_Permutation.
Defined.

(** X2: the listing does not depend on the order in which the range over
    the map of names runs: two runs give the same sequence. *)
Theorem scripts_order_independent range_keys1 range_keys2 (gt : githubTree) :
  valid_order range_keys1 → valid_order range_keys2 →
  scripts range_keys1 gt = scripts range_keys2 gt.
Proof.
  intros Hv1 Hv2. unfold scripts, sort_strings.
  apply (Sorted_unique String.le); [apply Sorted_merge_sort, _..|].
  rewrite !merge_sort_Permutation. unfold keys. by rewrite (Hv1 _), (Hv2 _).
Qed.

Lemma scripts_order_independent_witness :
  scripts any_order sample.remote = scripts reverse sample.remote.
Proof.
  apply (scripts_order_independent any_order reverse sample.remote).
  - intros ks. reflexivity.
  - intros ks. apply reverse_Permutation.
Defined.

(** ** Descriptions *)

Lemma Split_not_nil {A} `{EqDecision A} (s sep : list A) :
  sep ≠ [] → ∃ chunk others, Split s sep = chunk :: others.
Proof.
  intros Hsep. rewrite Split_unfold by done.
  destruct (cut sep s) as [[b a]|]; eauto.
Qed.

(** X3: [readDescription] returns a description exactly for the READMEs
    that contain the heading; for all others the index is out of range. *)
Theorem readDescription_defined_iff (readme : slice) :
  is_Some (readDescription readme) ↔
  ∃ before after,
    slice_bytes readme = before ++ description_marker ++ after.
Proof.
  unfold readDescription.
  rewrite Split_unfold by apply description_marker_not_nil.
  destruct (cut description_marker (slice_bytes readme)) as [[b a]|] eqn:Hcut.
  - apply cut_Some in Hcut as [Hs _]. split; [by eauto|]. intros _.
    destruct (Split_not_nil a description_marker description_marker_not_nil)
      as (text & others & ->).
    change ((b :: text :: others) !! 1%nat) with (Some text). cbv beta iota.
    destruct (Split_not_nil text blank_lines blank_lines_not_nil)
      as (first & rest & ->).
    by eexists.
  - split; [by intros [? [=]]|].
    intros (before & after & Hs). by apply cut_None in Hs.
Qed.

(** X4: a README that ends after its description (one heading, no triple
    newline after it) has for description all the text that follows the
    heading, trimmed. *)
Theorem readDescription_to_the_end (readme before text : list byte) :
  first_at description_marker readme before text →
  (∀ b a, text ≠ b ++ description_marker ++ a) →
  (∀ b a, text ≠ b ++ blank_lines ++ a) →
  readDescription (Some readme) = Some (Str (TrimSpace text)).
Proof.
  intros Hhead Hone Hend. unfold readDescription. simpl.
  rewrite Split_unfold by apply description_marker_not_nil.
  rewrite (first_at_cut _ _ _ _ Hhead).
  rewrite Split_unfold by apply description_marker_not_nil.
  destruct (cut description_marker text) as [[b a]|] eqn:Hcut.
  { apply cut_Some in Hcut as [Hs _]. by apply Hone in Hs. }
  change ([before; text] !! 1%nat) with (Some text). cbv beta iota.
  rewrite Split_unfold by apply blank_lines_not_nil.
  destruct (cut blank_lines text) as [[b a]|] eqn:Hcut'; [|done].
  apply cut_Some in Hcut' as [Hs _]. by apply Hend in Hs.
Qed.

Lemma readDescription_to_the_end_witness :
  readDescription (Some (B "intro" ++ description_marker ++ B " Moves windows. "))
  = Some (Str (TrimSpace (B " Moves windows. "))).
Proof.
  apply (readDescription_to_the_end _ (B "intro") (B " Moves windows. ")).
  - apply cut_Some. vm_compute. reflexivity.
  - apply cut_None. vm_compute. reflexivity.
  - apply cut_None. vm_compute. reflexivity.
Defined.

(** ** Printing loops *)

Lemma printing_nil (w : World) : printing [] w = w.
Proof. unfold printing. rewrite app_nil_r. by destruct w. Qed.

Lemma printing_printing l1 l2 (w : World) :
  printing l2 (printing l1 w) = printing (l1 ++ l2) w.
Proof. unfold printing. simpl. by rewrite (assoc_L (++)). Qed.

(** A loop that prints a text for the elements that pass a test. *)
Lemma for_each_print {A} (xs : list A) (test : A → bool) (text : A → string)
    (w : World) :
  for_each xs (λ x, if test x then fmt_Printf (text x) else ret tt) w
  = (Ret tt, printing (text <$> filter (λ x, test x = true) xs) w).
Proof.
  revert w. induction xs as [|x xs IH]; intros w; simpl.
  - by rewrite printing_nil.
  - rewrite filter_cons. unfold bind. destruct (test x) eqn:Hx.
    + change (fmt_Printf (text x) w) with (Ret tt, printing [text x] w).
      cbv beta iota. rewrite IH, printing_printing.
      by rewrite decide_True by done.
    + unfold ret. rewrite IH. by rewrite decide_False by done.
Qed.

(** ** The command [list] *)

(** X5: [list] prints, in the order of the local tree, the names of the
    installed scripts that the repository still has, one per line, and
    nothing else; the file system and the log are left alone. *)
Theorem list_prints_installed_and_remote env (w : World) (cpath : string)
    (gt : githubTree) (lt : list localNode) :
  scriptsDir env = inr cpath →
  treeResponse env = inr gt →
  getLocalTree cpath w = (Ret lt, w) →
  let names := filter (λ S, scriptExists gt S = true) (ScriptName <$> lt) in
  list_ env w = (Ret tt, printing ((λ S, S +:+ nl) <$> names) w) ∧
  ∀ S, S ∈ names ↔
       local_scriptExists lt S = true ∧ scriptExists gt S = true.
Proof.
  intros Hdir Htree Hlt names. split.
  - unfold list_, contribPath, getGithubTree. rewrite Hdir, Htree.
    unfold bind at 1 2 3, ret at 1 2. rewrite Hlt.
    rewrite (for_each_print lt (λ lnode, scriptExists gt (ScriptName lnode))
               (λ lnode, ScriptName lnode +:+ nl)).
    do 2 f_equal. unfold names. clear.
    induction lt as [|node lt IH]; [done|].
    rewrite fmap_cons, !filter_cons. simpl.
    destruct (decide (scriptExists gt (ScriptName node) = true));
      rewrite ?fmap_cons; by rewrite IH.
  - intros S. unfold names.
    rewrite list_elem_of_filter, local_scriptExists_true, list_elem_of_fmap.
    split.
    + intros [? (node & -> & ?)]. split; [by exists node|done].
    + intros [(node & ? & <-) ?]. split; [done|by exists node].
Qed.

Lemma list_prints_installed_and_remote_witness :
  let w := {| fs := {[ "/etc/wingo/scripts" := Dir 493;
                       "/etc/wingo/scripts/foo" := Dir 493;
                       "/etc/wingo/scripts/gone" := Dir 493;
                       "/etc/wingo/scripts/notes" := File 420 [] ]};
              umask := 18; stdout := []; stderr := [] |} in
  list_ (sample.run_with false [] []) w
  = (Ret tt, printing ["foo" +:+ nl] w).
Proof.
  intros w.
  refine (proj1 (list_prints_installed_and_remote (sample.run_with false [] [])
                   w "/etc/wingo/scripts" sample.remote
                   [{| ScriptName := "gone"; LPath := "/etc/wingo/scripts/gone" |};
                    {| ScriptName := "foo"; LPath := "/etc/wingo/scripts/foo" |}]
                   eq_refl eq_refl _)).
  vm_compute. reflexivity.
Defined.

(** ** The command [search], when every script has a description *)









(** ** Commands that only read *)

Lemma keeps_files_ret {A} (a : A) : keeps_files (ret a).
Proof. done. Qed.

Lemma keeps_files_bind {A B} (c : M A) (k : A → M B) :
  keeps_files c → (∀ a, keeps_files (k a)) → keeps_files (bind c k).
Proof.
  intros Hc Hk w. unfold bind. specialize (Hc w).
  destruct (c w) as [[a|code|msg] w']; simpl in *; [|done..].
  by rewrite Hk.
Qed.

Lemma keeps_files_log_Output text : keeps_files (log_Output text).
Proof. done. Qed.

Lemma keeps_files_log_Fatal {A} text : keeps_files (@log_Fatal A text).
Proof. done. Qed.

Lemma keeps_files_fmt_Printf text : keeps_files (fmt_Printf text).
Proof. done. Qed.

Lemma keeps_files_for_each {A} (xs : list A) body :
  (∀ x, keeps_files (body x)) → keeps_files (for_each xs body).
Proof.
  intros Hb. induction xs as [|x xs IH]; [done|]. simpl.
  by apply keeps_files_bind.
Qed.

Lemma keeps_files_quiet {A} (c : M A) : quiet c → keeps_files c.
Proof. intros Hq w. apply Hq. Qed.

Lemma keeps_files_usage {A} info flags : keeps_files (@usage A info flags).
Proof.
  unfold usage. apply keeps_files_bind; [done|]. intros _.
  apply keeps_files_bind; [|done].
  apply keeps_files_for_each. intros [[name defValue] help].
  by apply keeps_files_bind.
Qed.

Lemma keeps_files_one_argument env info flags :
  keeps_files (one_argument env info flags).
Proof.
  unfold one_argument. destruct (flagArgs env) as [|S [|? ?]];
    [apply keeps_files_usage|done|apply keeps_files_usage].
Qed.

Lemma keeps_files_getLocalTree cpath : keeps_files (getLocalTree cpath).
Proof.
  intros w. destruct (getLocalTree_run cpath w) as [[lt ->]|(w' & -> & ? & _)];
    done.
Qed.

Lemma keeps_files_contribPath env : keeps_files (contribPath env).
Proof. unfold contribPath. by destruct (scriptsDir env). Qed.

Lemma keeps_files_info env : keeps_files (info env).
Proof.
  unfold info. apply keeps_files_bind; [apply keeps_files_one_argument|].
  intros S. apply keeps_files_bind;
    [apply keeps_files_quiet, quiet_getGithubTree|].
  intros gt. destruct (negb _); [done|].
  apply keeps_files_bind; [apply keeps_files_quiet, quiet_downloadFile|done].
Qed.

Lemma keeps_files_search env range_keys : keeps_files (search env range_keys).
Proof.
  unfold search. apply keeps_files_bind;
    [apply keeps_files_quiet, quiet_getGithubTree|].
  intros gt. apply keeps_files_bind;
    [apply keeps_files_quiet, quiet_map_M, quiet_dled|].
  intros found. apply keeps_files_for_each. intros script.
  by destruct (Contains _ _).
Qed.

Lemma keeps_files_list env : keeps_files (list_ env).
Proof.
  unfold list_. apply keeps_files_bind; [apply keeps_files_contribPath|].
  intros cpath. apply keeps_files_bind;
    [apply keeps_files_quiet, quiet_getGithubTree|].
  intros gt. apply keeps_files_bind; [apply keeps_files_getLocalTree|].
  intros lt. apply keeps_files_for_each. intros lnode.
  by destruct (scriptExists _ _).
Qed.

(** X7: [info], [search] and [list] only read: in every environment and
    every world, however the command ends (return, exit or panic), the
    file system is the one it started with. *)
Theorem read_only_commands env range_keys (w : World) :
  fs (info env w).2 = fs w ∧
  fs (search env range_keys w).2 = fs w ∧
  fs (list_ env w).2 = fs w.
Proof.
  split_and!;
    [apply keeps_files_info|apply keeps_files_search|apply keeps_files_list].
Qed.

(** ** Failures of the environment *)

Lemma always_fatal_log_Fatal {A} text : always_fatal (@log_Fatal A text).
Proof. intros w. apply log_Fatal_run. Qed.

Lemma always_fatal_bind_first {A B} (c : M A) (k : A → M B) :
  always_fatal c → always_fatal (bind c k).
Proof.
  intros Hc w. unfold bind. destruct (Hc w) as (w' & -> & ?). by exists w'.
Qed.

Lemma always_fatal_bind {A B} (c : M A) (k : A → M B) :
  pure_or_fatal c → (∀ a, always_fatal (k a)) → always_fatal (bind c k).
Proof.
  intros [[a Ha]|Hc] Hk; [|by apply always_fatal_bind_first].
  intros w. unfold bind. rewrite Ha. apply Hk.
Qed.

Lemma ends_with_newline_nl s : ends_with_newline (s +:+ nl) = true.
Proof.
  induction s as [|c s IH]; [done|]. rewrite app_String.
  destruct (s +:+ nl) as [|c' rest] eqn:Hs; [by destruct s|].
  exact IH.
Qed.

Lemma log_Output_nl text (w : World) :
  log_Output (text +:+ nl) w
  = (Ret tt, {| fs := fs w; umask := umask w; stdout := stdout w;
                stderr := stderr w ++ [text +:+ nl] |}).
Proof. unfold log_Output. by rewrite ends_with_newline_nl. Qed.

(** A loop that only writes to the log. *)
Lemma for_each_logs {A} (xs : list A) (body : A → M unit) (w : World) :
  (∀ x w, ∃ entries,
     body x w = (Ret tt, {| fs := fs w; umask := umask w; stdout := stdout w;
                            stderr := stderr w ++ entries |})) →
  ∃ entries,
    for_each xs body w
    = (Ret tt, {| fs := fs w; umask := umask w; stdout := stdout w;
                  stderr := stderr w ++ entries |}).
Proof.
  intros Hb. revert w. induction xs as [|x xs IH]; intros w.
  - exists []. simpl. unfold ret. rewrite app_nil_r. by destruct w.
  - simpl. unfold bind. destruct (Hb x w) as [e1 ->].
    destruct (IH {| fs := fs w; umask := umask w; stdout := stdout w;
                    stderr := stderr w ++ e1 |}) as [e2 ->].
    exists (e1 ++ e2). simpl. by rewrite (assoc_L (++)).
Qed.

(** [usage] writes the usage line first, then the flags, and exits with
    status 1. *)
Lemma usage_run {A} info flags (w : World) :
  ∃ w' entries,
    @usage A info flags w = (Exit 1, w') ∧
    fs w' = fs w ∧ stdout w' = stdout w ∧ umask w' = umask w ∧
    stderr w' = stderr w ++ (info +:+ nl +:+ nl) :: entries.
Proof.
  unfold usage, bind, log_Printf.
  replace (info +:+ nl +:+ nl) with ((info +:+ nl) +:+ nl)
    by apply app_assoc_s.
  rewrite log_Output_nl. cbv beta iota.
  match goal with
  | |- context [for_each flags ?body ?w1] =>
      destruct (for_each_logs flags body w1) as [entries Hloop]
  end.
  { intros [[name defValue] help] w0.
    replace ("-" +:+ name +:+
             (if decide (defValue = "") then ""
              else " (default: " +:+ defValue +:+ ")") +:+ nl)
      with (("-" +:+ name +:+
             (if decide (defValue = "") then ""
              else " (default: " +:+ defValue +:+ ")")) +:+ nl)
      by (by rewrite !app_assoc_s).
    replace ("    " +:+ replace_newlines help (nl +:+ "    ") +:+ nl)
      with (("    " +:+ replace_newlines help (nl +:+ "    ")) +:+ nl)
      by (by rewrite !app_assoc_s).
    rewrite !log_Output_nl. simpl. eexists [_; _].
    by rewrite <- (assoc_L (++)). }
  rewrite Hloop. simpl.
  eexists _, entries. split; [reflexivity|]. simpl.
  by rewrite <- (assoc_L (++)).
Qed.

Lemma always_fatal_usage {A} info flags : always_fatal (@usage A info flags).
Proof.
  intros w. destruct (@usage_run A info flags w) as (w' & ? & ? & ? & ? & ? & _).
  by exists w'.
Qed.

Lemma pure_or_fatal_one_argument env info flags :
  pure_or_fatal (one_argument env info flags).
Proof.
  unfold one_argument. destruct (flagArgs env) as [|S [|? ?]].
  - right. apply always_fatal_usage.
  - apply pure_or_fatal_ret.
  - right. apply always_fatal_usage.
Qed.

Lemma pure_or_fatal_contribPath env : pure_or_fatal (contribPath env).
Proof.
  unfold contribPath. destruct (scriptsDir env);
    [apply pure_or_fatal_log_Fatal|apply pure_or_fatal_ret].
Qed.

Lemma always_fatal_getGithubTree env err :
  treeResponse env = inl err → always_fatal (getGithubTree env).
Proof. intros He. unfold getGithubTree. rewrite He. apply always_fatal_log_Fatal. Qed.

(** X8: when the listing of the repository cannot be fetched or decoded,
    every command ends with exit status 1 and leaves the file system and
    the standard output alone; so do [install], [upgrade] and [list] when
    the scripts directory cannot be found. *)
Theorem environment_failures_are_fatal env range_keys (err : string) :
  (treeResponse env = inl err →
   always_fatal (install env range_keys) ∧
   always_fatal (upgrade env range_keys) ∧
   always_fatal (search env range_keys) ∧
   always_fatal (info env) ∧
   always_fatal (list_ env)) ∧
  (scriptsDir env = inl err →
   always_fatal (install env range_keys) ∧
   always_fatal (upgrade env range_keys) ∧
   always_fatal (list_ env)).
Proof.
  split.
  - intros He. pose proof (always_fatal_getGithubTree env err He) as Hgt.
    split_and!.
    + unfold install.
      apply always_fatal_bind; [apply pure_or_fatal_one_argument|]. intros S.
      apply always_fatal_bind; [apply pure_or_fatal_contribPath|]. intros cp.
      by apply always_fatal_bind_first.
    + unfold upgrade.
      apply always_fatal_bind; [apply pure_or_fatal_one_argument|]. intros S.
      apply always_fatal_bind; [apply pure_or_fatal_contribPath|]. intros cp.
      by apply always_fatal_bind_first.
    + unfold search. by apply always_fatal_bind_first.
    + unfold info.
      apply always_fatal_bind; [apply pure_or_fatal_one_argument|]. intros S.
      by apply always_fatal_bind_first.
    + unfold list_.
      apply always_fatal_bind; [apply pure_or_fatal_contribPath|]. intros cp.
      by apply always_fatal_bind_first.
  - intros He.
    assert (always_fatal (contribPath env)) as Hcp.
    { unfold contribPath. rewrite He. apply always_fatal_log_Fatal. }
    split_and!.
    + unfold install.
      apply always_fatal_bind; [apply pure_or_fatal_one_argument|]. intros S.
      by apply always_fatal_bind_first.
    + unfold upgrade.
      apply always_fatal_bind; [apply pure_or_fatal_one_argument|]. intros S.
      by apply always_fatal_bind_first.
    + unfold list_. by apply always_fatal_bind_first.
Qed.

Lemma environment_failures_are_fatal_witness :
  let offline :=
    {| flagSkipConfig := false; flagArgs := ["foo"];
       scriptsDir := inr "/etc/wingo/scripts";
       treeResponse := inl "dial tcp: i/o timeout";
       httpGet := λ _, HttpError "dial tcp: i/o timeout" |} in
  let homeless :=
    {| flagSkipConfig := false; flagArgs := ["foo"];
       scriptsDir := inl "no config directory";
       treeResponse := inr sample.remote;
       httpGet := sample.server [] |} in
  (always_fatal (install offline any_order) ∧
   always_fatal (upgrade offline any_order) ∧
   always_fatal (search offline any_order) ∧
   always_fatal (info offline) ∧
   always_fatal (list_ offline)) ∧
  (always_fatal (install homeless any_order) ∧
   always_fatal (upgrade homeless any_order) ∧
   always_fatal (list_ homeless)).
Proof.
  intros offline homeless. split.
  - exact (proj1 (environment_failures_are_fatal offline any_order
                    "dial tcp: i/o timeout") eq_refl).
  - exact (proj2 (environment_failures_are_fatal homeless any_order
                    "no config directory") eq_refl).
Defined.

(** ** Usage errors *)

(** X9: [install], [upgrade] and [info] called with no script name or with
    more than one write their usage line to the log (followed, for
    [upgrade], by its flag) and end with exit status 1; the file system and
    the standard output are left alone. *)
Theorem wrong_number_of_arguments env range_keys (w : World) :
  length (flagArgs env) ≠ 1%nat →
  let refuses (info : string) (run : M unit) :=
    ∃ w' entries,
      run w = (Exit 1, w') ∧ fs w' = fs w ∧ stdout w' = stdout w ∧
      umask w' = umask w ∧
      stderr w' = stderr w ++ (info +:+ nl +:+ nl) :: entries in
  refuses "Usage: wingo-contrib install script-name" (install env range_keys) ∧
  refuses "Usage: wingo-contrib upgrade script-name [flags]"
          (upgrade env range_keys) ∧
  refuses "Usage: wingo-contrib info script-name" (info env).
Proof.
  intros Hargs refuses. subst refuses. simpl.
  assert (∀ info flags,
            one_argument env info flags = usage info flags) as Hone.
  { intros info flags. unfold one_argument.
    by destruct (flagArgs env) as [|S [|? ?]]. }
  split_and!.
  - unfold install, bind. rewrite Hone.
    destruct (@usage_run string "Usage: wingo-contrib install script-name" [] w)
      as (w' & entries & -> & ?). by exists w', entries.
  - unfold upgrade, bind. rewrite Hone.
    destruct (@usage_run string
                "Usage: wingo-contrib upgrade script-name [flags]"
                [skip_config_flag] w)
      as (w' & entries & -> & ?). by exists w', entries.
  - unfold info, bind. rewrite Hone.
    destruct (@usage_run string "Usage: wingo-contrib info script-name" [] w)
      as (w' & entries & -> & ?). by exists w', entries.
Qed.

Lemma wrong_number_of_arguments_witness :
  let env := sample.run_with false ["foo"; "bar"] [] in
  ∃ w' entries,
    upgrade env any_order sample.installed = (Exit 1, w') ∧
    fs w' = fs sample.installed ∧ stdout w' = [] ∧ umask w' = 18 ∧
    stderr w'
    = [] ++ ("Usage: wingo-contrib upgrade script-name [flags]" +:+ nl +:+ nl)
            :: entries.
Proof.
  intros env.
  refine (proj1 (proj2 (wrong_number_of_arguments env any_order
                          sample.installed _))).
  vm_compute. discriminate.
Defined.

(** ** The entry point *)





(** ** The bundle that [download] builds *)

Lemma download_nodes_lookup env S nodes files files' (w w' : World) f :
  download_nodes env S nodes files w = (Ret files', w') →
  (Exists (λ node, split node = (S, f)) nodes →
   ∃ contents, files' !! f = Some contents ∧
               ∀ w0, downloadFile env S f w0 = (Ret contents, w0)) ∧
  (¬ Exists (λ node, split node = (S, f)) nodes → files' !! f = files !! f).
Proof.
  revert files w. induction nodes as [|node nodes IH]; intros files w; simpl.
  - intros [= <- _]. split; [by intros ?%Exists_nil|done].
  - destruct (split node) as [sname fname] eqn:Hsplit.
    destruct (decide (sname = S)) as [->|Hne].
    + unfold bind.
      destruct (downloadFile env S fname w) as [[contents|?|?] w1] eqn:Hdl;
        [|done..].
      intros Hrest. destruct (IH _ _ Hrest) as [Hin Hout].
      pose proof (pure_or_fatal_Ret _ _ _ _
                    (pure_or_fatal_downloadFile env S fname) Hdl) as Hpure.
      split.
      * intros Hex.
        destruct (decide (Exists (λ node, split node = (S, f)) nodes))
          as [Hlater|Hnot]; [by apply Hin|].
        apply Exists_cons in Hex as [Hhere|?]; [|done].
        rewrite Hsplit in Hhere. injection Hhere as <-.
        exists contents. split; [|done].
        by rewrite (Hout Hnot), lookup_insert_eq.
      * intros Hnot. rewrite Hout.
        -- apply lookup_insert_ne. intros <-. apply Hnot. by left.
        -- intros Hex. apply Hnot. by right.
    + intros Hrest. destruct (IH _ _ Hrest) as [Hin Hout]. split.
      * intros [Hhere|?]%Exists_cons; [|by apply Hin].
        rewrite Hsplit in Hhere. by injection Hhere.
      * intros Hnot. apply Hout. intros Hex. apply Hnot. by right.
Qed.

(** The entries of a downloaded bundle: one for each file name listed
    under the script, holding what [downloadFile] returns for it. *)
Lemma download_files_lookup env (gt : githubTree) (S : string)
    (script : contribScript) (w w' : World) f contents :
  download env gt S w = (Ret script, w') →
  Files script !! f = Some contents ↔
  (∃ node, node ∈ Tree gt ∧ split node = (S, f)) ∧
  ∀ w0, downloadFile env S f w0 = (Ret contents, w0).
Proof.
  unfold download, bind.
  destruct (download_nodes env S (Tree gt) ∅ w)
    as [[files|?|?] w1] eqn:Hnodes; [|done..].
  simpl. destruct (index files "README.md"); [|done].
  unfold source. simpl. destruct (index files S); [|done].
  intros [= <- _]. simpl.
  destruct (download_nodes_lookup _ _ _ _ _ _ _ f Hnodes) as [Hin Hout].
  rewrite <- Exists_exists. split.
  - intros Hf.
    destruct (decide (Exists (λ node, split node = (S, f)) (Tree gt)))
      as [Hex|Hnot].
    + split; [done|]. destruct (Hin Hex) as (c & Hc & Hpure). congruence.
    + rewrite (Hout Hnot), lookup_empty in Hf. done.
  - intros [Hex Hpure]. destruct (Hin Hex) as (c & Hc & Hpure').
    specialize (Hpure w). specialize (Hpure' w). congruence.
Qed.

(** The mandatory files of a downloaded bundle have contents. *)
Lemma download_mandatory_lookup env (gt : githubTree) (S : string)
    (script : contribScript) (w w' : World) :
  download env gt S w = (Ret script, w') →
  (∃ readme, Files script !! "README.md" = Some (Some readme)) ∧
  (∃ code, Files script !! S = Some (Some code)).
Proof.
  intros Hdl.
  destruct (download_mandatory _ _ _ _ _ _ Hdl) as [[readme Hr] [code Hs]].
  split.
  - exists readme. unfold index in Hr.
    destruct (Files script !! "README.md") as [[?|]|]; simplify_eq/=; done.
  - exists code. unfold index in Hs.
    destruct (Files script !! S) as [[?|]|]; simplify_eq/=; done.
Qed.

(** X11: the bundle that [download] returns is named after the script,
    has an entry for exactly the file names of the entries listed under
    the script, and each entry holds what [downloadFile] returns for that
    name ([nil] when the status is 400 or more); the files [README.md] and
    the source are among them with contents; and the world is left as it
    was. *)
Theorem download_bundle_exact env (gt : githubTree) (S : string)
    (script : contribScript) (w w' : World) :
  download env gt S w = (Ret script, w') →
  w' = w ∧ Name script = S ∧
  (∀ f contents,
     Files script !! f = Some contents ↔
     (∃ node, node ∈ Tree gt ∧ split node = (S, f)) ∧
     ∀ w0, downloadFile env S f w0 = (Ret contents, w0)) ∧
  (∃ readme, Files script !! "README.md" = Some (Some readme)) ∧
  (∃ code, Files script !! S = Some (Some code)).
Proof.
  intros Hdl.
  pose proof (pure_or_fatal_Ret _ _ _ _ (pure_or_fatal_download env gt S) Hdl w)
    as Hw.
  assert (w' = w) as -> by congruence.
  pose proof (download_Name _ _ _ _ _ _ Hdl) as Hname.
  destruct (download_mandatory_lookup _ _ _ _ _ _ Hdl) as [Hr Hs].
  split_and!; [done|done| |done|done].
  intros f contents. by apply (download_files_lookup env gt S script w w).
Qed.

Lemma download_bundle_exact_witness :
  download (broken.run ["foo"]) broken.remote "foo" sample.fresh
    = (Ret broken.bundle, sample.fresh) ∧
  (Files broken.bundle !! "doc" = Some None ↔
   (∃ node, node ∈ Tree broken.remote ∧ split node = ("foo", "doc")) ∧
   ∀ w0, downloadFile (broken.run ["foo"]) "foo" "doc" w0 = (Ret None, w0)).
Proof.
  assert (download (broken.run ["foo"]) broken.remote "foo" sample.fresh
          = (Ret broken.bundle, sample.fresh)) as Hdl
    by (vm_compute; reflexivity).
  split; [exact Hdl|].
  exact (proj1 (proj2 (proj2 (download_bundle_exact _ _ _ _ _ _ Hdl)))
           "doc" None).
Defined.

(** X12: a script whose [README.md], or whose source file, is not listed
    or is answered with a status of 400 or more cannot be downloaded:
    [download] ends with exit status 1 in every world, and only the log
    changes. *)
Theorem download_corrupt_repository env (gt : githubTree) (S f : string) :
  f = "README.md" ∨ f = S →
  (¬ (∃ node, node ∈ Tree gt ∧ split node = (S, f)) ∨
   ∃ status body, httpGet env (raw_url S f) = HttpResponse status body ∧
                  400 ≤ status) →
  always_fatal (download env gt S).
Proof.
  intros Hf Habsent.
  destruct (pure_or_fatal_download env gt S) as [[script Hret]|Hfatal]; [|done].
  exfalso. set (w := {| fs := ∅; umask := 0; stdout := []; stderr := [] |}).
  destruct (download_mandatory_lookup _ _ _ _ _ _ (Hret w))
    as [[readme Hr] [code Hs]].
  assert (∃ contents, Files script !! f = Some (Some contents))
    as [contents Hc] by (destruct Hf as [-> | ->]; eauto).
  apply (download_files_lookup _ _ _ _ _ _ _ _ (Hret w)) in Hc
    as [Hlisted Hpure].
  destruct Habsent as [Hno|(status & body & Hget & Hge)]; [done|].
  specialize (Hpure w). revert Hpure. unfold downloadFile.
  fold (raw_url S f). rewrite Hget.
  apply Z.ltb_ge in Hge. by rewrite Hge.
Qed.

Lemma download_corrupt_repository_witness :
  always_fatal
    (download {| flagSkipConfig := false; flagArgs := ["foo"];
                 scriptsDir := inr "/etc/wingo/scripts";
                 treeResponse := inr sample.remote;
                 httpGet := λ _, HttpResponse 404 None |}
              sample.remote "foo").
Proof.
  apply (download_corrupt_repository _ sample.remote "foo" "README.md").
  - by left.
  - right. exists 404, None. split; [reflexivity|]. discriminate.
Defined.

(** ** Upgrading over a configuration that cannot be read *)

Lemma readConfig_dir (ln : localNode) (w : World) mode :
  fs w !! filepath.Join (LPath ln) (configName (ScriptName ln))
    = Some (Dir mode) →
  ∃ w', readConfig ln w = (Exit 1, w') ∧ fs w' = fs w ∧ stdout w' = stdout w.
Proof.
  intros Hd. unfold readConfig, bind, get_world, os.ReadFile. rewrite Hd.
  eexists. split; [reflexivity|done].
Qed.

(** X13: without [--skip-config], when the bundle has a configuration file
    and the local configuration cannot be read (a directory sits at its
    place), [upgrade] ends with exit status 1 before any file is written. *)
Theorem upgrade_unreadable_config env range_keys (w : World) (S cpath : string)
    (gt : githubTree) (script : contribScript) (mode : Z)
    (theirs : list byte) :
  upgrade_ready env w S cpath gt script →
  flagSkipConfig env = false →
  fs w !! filepath.Join (filepath.Join cpath S) (configName S)
    = Some (Dir mode) →
  config script = Some theirs →
  ∃ w', upgrade env range_keys w = (Exit 1, w') ∧
        fs w' = fs w ∧ stdout w' = stdout w.
Proof.
  intros Hready Hskip Hmine Htheirs.
  rewrite (upgrade_ready_run _ range_keys _ _ _ _ _ Hready).
  unfold upgrade_files. rewrite Hskip.
  erewrite bind_Ret by apply hasConfig_run. simpl.
  rewrite Hmine, Htheirs, bool_decide_eq_true_2 by done. simpl.
  destruct (readConfig_dir
              {| ScriptName := S; LPath := filepath.Join cpath S |} w mode Hmine)
    as (w' & Hread & Hfs & Hout).
  exists w'. split; [|done]. unfold bind. by rewrite Hread.
Qed.

Lemma upgrade_unreadable_config_witness :
  let w := set_fs <["/etc/wingo/scripts/foo/foo.cfg" := Dir 493]>
             sample.installed in
  ∃ w', upgrade (sample.run_with false ["foo"] (B "theirs")) any_order w
        = (Exit 1, w') ∧
        fs w' = fs w ∧ stdout w' = stdout w.
Proof.
  intros w.
  refine (upgrade_unreadable_config (sample.run_with false ["foo"] (B "theirs"))
            any_order w "foo" "/etc/wingo/scripts" sample.remote
            (sample_bundle (B "theirs")) 493 (B "theirs") _ eq_refl _ eq_refl).
  - split_and!; try reflexivity.
    exists [{| ScriptName := "foo"; LPath := "/etc/wingo/scripts/foo" |}].
    split; vm_compute; reflexivity.
  - vm_compute. reflexivity.
Defined.

(** ** Installing *)

(** X14: [install] never replaces what sits at the place of the script
    directory: when an entry (file or directory) is there, [install] ends
    with exit status 1 and the file system is left as it was. *)
Theorem install_keeps_existing_entry env range_keys (w : World)
    (S cpath : string) :
  flagArgs env = [S] →
  scriptsDir env = inr cpath →
  is_Some (fs w !! filepath.Join cpath S) →
  ∃ w', install env range_keys w = (Exit 1, w') ∧
        fs w' = fs w ∧ stdout w' = stdout w.
Proof.
  intros Hargs Hdir [node Hnode].
  unfold install, one_argument, contribPath, getGithubTree.
  rewrite Hargs, Hdir. unfold bind at 1 2, ret at 1 2.
  destruct (treeResponse env) as [err|gt].
  { unfold bind. eexists. split; [reflexivity|done]. }
  unfold bind at 1, ret at 1. unfold bind at 1.
  destruct (getLocalTree_run cpath w) as [[lt ->]|(w' & -> & ? & ? & _)];
    [|by exists w'].
  destruct (scriptExists gt S); simpl; [|eexists; split; [reflexivity|done]].
  destruct (local_scriptExists lt S); [eexists; split; [reflexivity|done]|].
  unfold bind, os.Mkdir. rewrite Hnode.
  eexists. split; [reflexivity|done].
Qed.

Lemma install_keeps_existing_entry_witness :
  let w := set_fs <["/etc/wingo/scripts/foo" := File 420 (B "a note")]>
             sample.fresh in
  ∃ w', install (sample.run_with false ["foo"] []) any_order w = (Exit 1, w') ∧
        fs w' = fs w ∧ stdout w' = stdout w.
Proof.
  intros w.
  apply (install_keeps_existing_entry (sample.run_with false ["foo"] [])
           any_order w "foo" "/etc/wingo/scripts" eq_refl eq_refl).
  vm_compute. by eexists.
Defined.

(** ** The execute bits, again *)

Lemma add_exec_bits_Perm mode :
  os.Perm (add_exec_bits (os.Perm mode)) = add_exec_bits (os.Perm mode).
Proof.
  rewrite add_exec_bits_lor. unfold os.Perm.
  rewrite Z.land_lor_distr_l, <- Z.land_assoc. reflexivity.
Qed.

Lemma add_exec_bits_twice perms :
  add_exec_bits (add_exec_bits perms) = add_exec_bits perms.
Proof.
  rewrite !add_exec_bits_lor, <- Z.lor_assoc. reflexivity.
Qed.

(** X15: [chmodx] on a path where nothing sits ends with exit status 1
    and changes nothing but the log; on an existing entry it returns, and
    running it a second time changes nothing more. *)
Theorem chmodx_missing_and_twice (fpath : string) (w : World) :
  (fs w !! fpath = None →
   ∃ w', chmodx fpath w = (Exit 1, w') ∧ fs w' = fs w ∧ stdout w' = stdout w) ∧
  (is_Some (fs w !! fpath) →
   ∃ w', chmodx fpath w = (Ret tt, w') ∧ chmodx fpath w' = (Ret tt, w')).
Proof.
  split.
  - intros Hnone. unfold chmodx, bind, get_world, os.Stat. rewrite Hnone.
    eexists. split; [reflexivity|done].
  - intros [[mode data|mode] Hnode].
    + unfold chmodx at 1. unfold bind, get_world, os.Stat, os.Chmod.
      rewrite Hnode. simpl. rewrite Hnode. eexists. split; [reflexivity|].
      unfold chmodx, bind, get_world, os.Stat, os.Chmod. simpl.
      rewrite lookup_insert_eq. simpl. rewrite lookup_insert_eq.
      unfold set_fs. simpl.
      by rewrite add_exec_bits_Perm, add_exec_bits_twice, insert_insert_eq.
    + unfold chmodx at 1. unfold bind, get_world, os.Stat, os.Chmod.
      rewrite Hnode. simpl. rewrite Hnode. eexists. split; [reflexivity|].
      unfold chmodx, bind, get_world, os.Stat, os.Chmod. simpl.
      rewrite lookup_insert_eq. simpl. rewrite lookup_insert_eq.
      unfold set_fs. simpl.
      by rewrite add_exec_bits_Perm, add_exec_bits_twice, insert_insert_eq.
Qed.

Lemma chmodx_missing_and_twice_witness :
  (∃ w', chmodx "/etc/wingo/scripts/foo/foo" sample.fresh = (Exit 1, w') ∧
         fs w' = fs sample.fresh ∧ stdout w' = stdout sample.fresh) ∧
  (∃ w', chmodx "/etc/wingo/scripts/foo/README.md" sample.installed
         = (Ret tt, w') ∧
         chmodx "/etc/wingo/scripts/foo/README.md" w' = (Ret tt, w')).
Proof.
  split.
  - apply (proj1 (chmodx_missing_and_twice "/etc/wingo/scripts/foo/foo"
                    sample.fresh)).
    vm_compute. reflexivity.
  - apply (proj2 (chmodx_missing_and_twice "/etc/wingo/scripts/foo/README.md"
                    sample.installed)).
    vm_compute. by eexists.
Defined.

(** ** Installing on a fresh machine *)

Lemma chmodx_file (fpath : string) (w : World) mode data :
  fs w !! fpath = Some (File mode data) →
  chmodx fpath w
  = (Ret tt, set_fs <[fpath := File (Z.lor (os.Perm mode) 73) data]> w).
Proof.
  intros Hf. unfold chmodx, bind, get_world, os.Stat, os.Chmod.
  rewrite Hf. simpl. rewrite Hf. by rewrite add_exec_bits_lor.
Qed.

(** X16: on a machine where the script is not installed, [install] of a
    script whose files were all fetched makes the script directory (mode
    0777 less the umask), writes every file of the bundle into it with its
    contents, gives the source file the execute bits of owner, group and
    other on top of the mode it was created with, changes no other path,
    and returns without printing or logging. *)
Theorem install_on_fresh_machine env range_keys (w : World) (S cpath : string)
    (gt : githubTree) (script : contribScript) :
  valid_order range_keys →
  install_ready env w S cpath gt script →
  plain_files script →
  installable script w (filepath.Join cpath S) →
  let scriptDir := filepath.Join cpath S in
  ∃ w',
    install env range_keys w = (Ret tt, w') ∧
    fs w' !! scriptDir = Some (Dir (Z.land 511 (Z.lnot (umask w)))) ∧
    (∀ f contents,
       Files script !! f = Some (Some contents) →
       fs w' !! filepath.Join scriptDir f
       = Some (File (if decide (f = S)
                     then Z.lor (os.Perm (file_mode w (filepath.Join scriptDir f))) 73
                     else file_mode w (filepath.Join scriptDir f))
                    contents)) ∧
    (∀ path,
       path ≠ scriptDir →
       (∀ f, is_Some (Files script !! f) → path ≠ filepath.Join scriptDir f) →
       fs w' !! path = fs w !! path) ∧
    stdout w' = stdout w ∧ stderr w' = stderr w.
Proof.
  intros Hv (Hargs & Hdir & Htree & Hyes & (lt & Hlt & Hloc) & Hfree & Hdl)
         Hplain Hinst scriptDir.
  set (w1 := set_fs <[scriptDir := Dir (Z.land 511 (Z.lnot (umask w)))]> w).
  assert (∀ path, path ≠ scriptDir → fs w1 !! path = fs w !! path) as Hw1.
  { intros path Hne. unfold w1. simpl. by rewrite lookup_insert_ne. }
  assert (∀ path, path ≠ scriptDir → file_mode w1 path = file_mode w path)
    as Hmode.
  { intros path Hne. unfold file_mode. by rewrite Hw1. }
  assert (fetched script w1 scriptDir (λ _, True)) as Hfetched.
  { intros f contents Hf _. destruct (Hinst f contents Hf) as (? & Hnd & Hne).
    split; [done|]. intros [mode Hd]. apply Hnd. exists mode.
    by rewrite <- Hw1. }
  destruct (copy_selected range_keys script w1 scriptDir (λ _, True)
              Hv Hplain Hfetched) as (w2 & Hcopy & Hin & Hout & Hso & Hse).
  rewrite filter_True in Hcopy.
  destruct (download_mandatory _ _ _ _ _ _ Hdl) as [_ [code Hcode]].
  assert (Files script !! S = Some (Some code)) as HS.
  { unfold index in Hcode.
    destruct (Files script !! S) as [[?|]|]; simplify_eq/=; done. }
  destruct (Hinst S _ HS) as (_ & _ & HSd).
  assert (∀ f, is_Some (Files script !! f) → scriptDir ≠ filepath.Join scriptDir f)
    as Hdne.
  { intros f [contents Hf] Heq. by destruct (Hinst f contents Hf) as (_ & _ & []). }
  pose proof (Hin S code I HS) as HS2.
  exists (set_fs <[filepath.Join scriptDir S :=
                     File (Z.lor (os.Perm (file_mode w1 (filepath.Join scriptDir S))) 73)
                          code]> w2).
  split_and!.
  - unfold install, one_argument, contribPath, getGithubTree.
    rewrite Hargs, Hdir, Htree.
    unfold bind at 1 2 3 4, ret at 1 2 3. rewrite Hlt, Hyes, Hloc. simpl.
    unfold bind at 1, os.Mkdir. rewrite Hfree. fold scriptDir. fold w1.
    unfold bind at 1.
    rewrite (pure_or_fatal_Ret _ _ _ _ (pure_or_fatal_download env gt S) Hdl).
    rewrite copyAll_copy_each. unfold bind. rewrite Hcopy.
    by apply chmodx_file.
  - simpl. rewrite lookup_insert_ne by done.
    rewrite Hout by (intros f Hf _; by apply Hdne).
    unfold w1. simpl. by rewrite lookup_insert_eq.
  - intros f contents Hf. simpl. destruct (decide (f = S)) as [->|Hne].
    + rewrite lookup_insert_eq, Hmode by done. congruence.
    + rewrite lookup_insert_ne.
      * rewrite (Hin f contents I Hf), Hmode; [done|].
        intros Heq. by apply (Hdne f); [eexists|].
      * intros Heq. apply Hne. symmetry.
        apply (Join_plain_inj scriptDir); [by eapply Hplain..|done].
  - intros path Hne Hpath. simpl.
    rewrite lookup_insert_ne by (intros <-; by apply (Hpath S); [eexists|]).
    rewrite Hout by (intros f Hf _; by apply Hpath). by apply Hw1.
  - simpl. by rewrite Hso.
  - simpl. by rewrite Hse.
Qed.

Lemma install_on_fresh_machine_witness :
  let env := sample.run_with false ["foo"] (B "theirs") in
  ∃ w',
    install env any_order sample.fresh = (Ret tt, w') ∧
    fs w' !! "/etc/wingo/scripts/foo" = Some (Dir 493) ∧
    fs w' !! "/etc/wingo/scripts/foo/foo" = Some (File 493 (B "#!/bin/sh")) ∧
    fs w' !! "/etc/wingo/scripts/foo/foo.cfg" = Some (File 420 (B "theirs")).
Proof.
  intros env.
  destruct (install_on_fresh_machine env any_order sample.fresh "foo"
              "/etc/wingo/scripts" sample.remote (sample_bundle (B "theirs"))
              any_order_valid)
    as (w' & Hrun & Hdir & Hfiles & _).
  - split_and!; try reflexivity. exists []. split; reflexivity.
  - apply (bool_decide_unpack _). vm_compute. exact I.
  - apply (bool_decide_unpack _). vm_compute. exact I.
  - exists w'. split_and!; [exact Hrun|exact Hdir|..].
    + exact (Hfiles "foo" (B "#!/bin/sh") eq_refl).
    + exact (Hfiles "foo.cfg" (B "theirs") eq_refl).
Defined.

(** ** Writing one file *)

(** X17: [copyFile] of a file that is in memory, to a destination that is
    not a directory, returns; reading the destination back gives exactly
    the contents in memory, whatever was there before; a file that was
    there keeps its mode; and no other path changes. *)
Theorem copyFile_overwrites (s : contribScript) (fileName dest : string)
    (contents : list byte) (w : World) :
  index (Files s) fileName = Some contents →
  ¬ is_dir (fs w) dest →
  ∃ w',
    copyFile s fileName dest w = (Ret tt, w') ∧
    os.ReadFile dest w' = inr contents ∧
    (∀ mode old, fs w !! dest = Some (File mode old) →
                 fs w' !! dest = Some (File mode contents)) ∧
    (∀ path, path ≠ dest → fs w' !! path = fs w !! path).
Proof.
  intros Hc Hd. exists (written w dest contents).
  split_and!; [by apply copyFile_ok|..].
  - unfold os.ReadFile, written. simpl. by rewrite lookup_insert_eq.
  - intros mode old Hold. unfold written, file_mode. simpl.
    by rewrite lookup_insert_eq, Hold.
  - intros path Hne. unfold written. simpl. by rewrite lookup_insert_ne.
Qed.

Lemma copyFile_overwrites_witness :
  ∃ w',
    copyFile (sample_bundle []) "README.md" "/etc/wingo/scripts/foo/README.md"
      sample.installed = (Ret tt, w') ∧
    os.ReadFile "/etc/wingo/scripts/foo/README.md" w' = inr sample.readme ∧
    (∀ mode old,
       fs sample.installed !! "/etc/wingo/scripts/foo/README.md"
         = Some (File mode old) →
       fs w' !! "/etc/wingo/scripts/foo/README.md"
         = Some (File mode sample.readme)) ∧
    (∀ path, path ≠ "/etc/wingo/scripts/foo/README.md" →
             fs w' !! path = fs sample.installed !! path).
Proof.
  apply (copyFile_overwrites (sample_bundle []) "README.md"
           "/etc/wingo/scripts/foo/README.md" sample.readme sample.installed).
  - reflexivity.
  - apply (bool_decide_unpack _). vm_compute. exact I.
Defined.

(** ** The local tree, entry by entry *)

(** X18: [getLocalTree] returns one node for each directory that sits
    directly in the scripts directory, named after it and with the joined
    path; regular files there are not scripts.  When the scripts directory
    is missing or is a regular file, the process stops with exit status
    1. *)
Theorem getLocalTree_lists_directories (cpath : string) (w : World) :
  (is_dir (fs w) cpath →
   ∃ lt, getLocalTree cpath w = (Ret lt, w) ∧
         ∀ node, node ∈ lt ↔
                 LPath node = filepath.Join cpath (ScriptName node) ∧
                 ∃ path mode, fs w !! path = Some (Dir mode) ∧
                              os.child_name cpath path = Some (ScriptName node)) ∧
  (¬ is_dir (fs w) cpath →
   ∃ w', getLocalTree cpath w = (Exit 1, w') ∧
         fs w' = fs w ∧ stdout w' = stdout w).
Proof.
  split.
  - intros [mode Hd]. unfold getLocalTree, bind, get_world, os.Readdir.
    rewrite Hd. eexists. split; [reflexivity|]. intros node.
    rewrite list_elem_of_omap. split.
    + intros ([name n] & Hin & Hnode).
      apply list_elem_of_omap in Hin as ([path n'] & Hin & Hname).
      apply elem_of_map_to_list in Hin. simpl in *.
      destruct (os.child_name cpath path) as [name'|] eqn:Hchild; [|done].
      simpl in Hname. injection Hname as -> ->.
      destruct n as [|mode']; [done|]. injection Hnode as <-. simpl.
      split; [done|]. by exists path, mode'.
    + intros [Hpath (path & mode' & Hp & Hchild)].
      exists (ScriptName node, Dir mode'). split.
      * apply list_elem_of_omap. exists (path, Dir mode').
        split; [by apply elem_of_map_to_list|]. simpl. by rewrite Hchild.
      * simpl. destruct node as [sn lp]. simpl in *. by rewrite Hpath.
  - intros Hnd. unfold getLocalTree, bind, get_world, os.Readdir.
    destruct (fs w !! cpath) as [[m d|m]|] eqn:Hc.
    + eexists. split; [reflexivity|done].
    + destruct Hnd. by exists m.
    + eexists. split; [reflexivity|done].
Qed.

Lemma getLocalTree_lists_directories_witness :
  (∃ lt, getLocalTree "/etc/wingo/scripts" sample.installed
         = (Ret lt, sample.installed) ∧
         ∀ node, node ∈ lt ↔
                 LPath node = filepath.Join "/etc/wingo/scripts" (ScriptName node) ∧
                 ∃ path mode,
                   fs sample.installed !! path = Some (Dir mode) ∧
                   os.child_name "/etc/wingo/scripts" path
                   = Some (ScriptName node)) ∧
  (∃ w', getLocalTree "/etc/wingo/scripts/foo/foo" sample.installed
         = (Exit 1, w') ∧
         fs w' = fs sample.installed ∧ stdout w' = stdout sample.installed).
Proof.
  split.
  - apply (proj1 (getLocalTree_lists_directories "/etc/wingo/scripts"
                    sample.installed)).
    apply (bool_decide_unpack _). vm_compute. exact I.
  - apply (proj2 (getLocalTree_lists_directories "/etc/wingo/scripts/foo/foo"
                    sample.installed)).
    apply (bool_decide_unpack _). vm_compute. exact I.
Defined.

(** ** What [--skip-config] never touches *)

(** However a copy ends, it changes no path but the destinations. *)
Lemma copy_each_frame (s : contribScript) (dest : string → string) names
    (w : World) path :
  (∀ f, f ∈ names → path ≠ dest f) →
  fs (copy_each s dest names w).2 !! path = fs w !! path.
Proof.
  revert w. induction names as [|f names IH]; intros w Hpath; [done|].
  unfold copy_each. simpl. unfold bind.
  destruct (copyFile_cases s f (dest f) w)
    as [(contents & _ & _ & ->)|(_ & w1 & -> & Hfs & _)].
  - fold (copy_each s dest names). rewrite IH.
    + unfold written. simpl. rewrite lookup_insert_ne; [done|].
      intros Heq. by apply (Hpath f); [left|].
    + intros g Hg. apply Hpath. by right.
  - simpl. by rewrite Hfs.
Qed.

(** X19: with [--skip-config], whatever the remote answers and however the
    run ends (also when it stops half way through the copy), the entry at
    the place of the local configuration file is the one from before the
    run.  (The file names listed under the script are plain names.) *)
Theorem upgrade_skip_config_keeps_config env range_keys (w : World)
    (S cpath : string) (gt : githubTree) :
  valid_order range_keys →
  flagSkipConfig env = true →
  flagArgs env = [S] →
  scriptsDir env = inr cpath →
  treeResponse env = inr gt →
  (∀ node f, node ∈ Tree gt → split node = (S, f) → plain_name f) →
  fs (upgrade env range_keys w).2
    !! filepath.Join (filepath.Join cpath S) (configName S)
  = fs w !! filepath.Join (filepath.Join cpath S) (configName S).
Proof.
  intros Hv Hskip Hargs Hdir Htree Hplain.
  unfold upgrade, one_argument, contribPath, getGithubTree.
  rewrite Hargs, Hdir, Htree. unfold bind at 1 2 3, ret at 1 2 3.
  unfold bind at 1.
  destruct (getLocalTree_run cpath w) as [[lt Hlt]|(w1 & Hw1 & Hfs & _)];
    [rewrite Hlt|rewrite Hw1; simpl; by rewrite Hfs].
  destruct (scriptExists gt S); simpl; [|done].
  destruct (local_scriptExists lt S) eqn:Hloc; simpl; [|done].
  apply (getLocalTree_exists _ _ _ S Hlt) in Hloc as (p & m & _ & Hchild).
  apply child_name_no_slash in Hchild.
  unfold bind at 1.
  destruct (download env gt S w) as [[script|code|msg] w1] eqn:Hdl.
  - pose proof (pure_or_fatal_Ret _ _ _ _ (pure_or_fatal_download env gt S)
                  Hdl w) as Hw.
    assert (w1 = w) as -> by congruence.
    unfold upgrade_files. rewrite Hskip.
    rewrite (for_each_filter (λ f, f ≠ configName S)).
    apply (copy_each_frame script (filepath.Join (filepath.Join cpath S))).
    intros f [Hne Hk]%list_elem_of_filter Heq.
    apply elem_of_keys in Hk; [|done].
    destruct (download_keys _ _ _ _ _ _ _ Hdl Hk) as (_ & node & Hnode & Hsplit).
    apply Hne. symmetry.
    apply (Join_plain_inj (filepath.Join cpath S));
      [by apply configName_plain|by eapply Hplain|done].
  - destruct (pure_or_fatal_download env gt S) as [[s Hs]|Hfatal].
    + rewrite Hs in Hdl. done.
    + destruct (Hfatal w) as (w' & Hw' & Hfs & _). simpl.
      rewrite Hdl in Hw'. injection Hw' as _ <-. by rewrite Hfs.
  - destruct (pure_or_fatal_download env gt S) as [[s Hs]|Hfatal].
    + rewrite Hs in Hdl. done.
    + destruct (Hfatal w) as (w' & Hw' & _). rewrite Hdl in Hw'. done.
Qed.

Lemma upgrade_skip_config_keeps_config_witness :
  let w := set_fs <["/etc/wingo/scripts/foo/foo.cfg" := File 420 (B "mine")]>
             (set_fs <["/etc/wingo/scripts/foo" := Dir 493]> sample.fresh) in
  fs (upgrade {| flagSkipConfig := true; flagArgs := ["foo"];
                 scriptsDir := inr "/etc/wingo/scripts";
                 treeResponse := inr broken.remote;
                 httpGet := sample.server (B "theirs") |} any_order w).2
    !! filepath.Join (filepath.Join "/etc/wingo/scripts" "foo") (configName "foo")
  = Some (File 420 (B "mine")).
Proof.
  intros w.
  rewrite (upgrade_skip_config_keeps_config
             {| flagSkipConfig := true; flagArgs := ["foo"];
                scriptsDir := inr "/etc/wingo/scripts";
                treeResponse := inr broken.remote;
                httpGet := sample.server (B "theirs") |}
             any_order w "foo" "/etc/wingo/scripts" broken.remote
             any_order_valid eq_refl eq_refl eq_refl eq_refl).
  - vm_compute. reflexivity.
  - intros node f Hin Hsplit.
    assert (Forall (λ node, (split node).1 = "foo" → plain_name (split node).2)
              (Tree broken.remote)) as Hall
      by (apply (bool_decide_unpack _); vm_compute; exact I).
    rewrite Forall_forall in Hall. specialize (Hall node Hin).
    rewrite Hsplit in Hall. by apply Hall.
Defined.
